(** * netflix-sync-server: room coordinator, presence registry, relay and
      latency prober of [src/index.js] (second, complete version of the file,
      lines 194-441).

    The server is a single-threaded event loop: every handler runs to
    completion.  The embedding is a state machine.  [State] holds the two
    module-level objects of the source ([users], [pingIntervals]) and the part
    of the socket.io runtime that the handlers read and write: the in-memory
    adapter's two maps ([sids], [rooms]) and the table of pending
    acknowledgement callbacks.  Every handler is a function from a state to an
    [Outcome]: the next state together with the messages it emitted, a thrown
    [TypeError], or a loop that is still spinning.

    What the source leaves to its environment is an explicit input of the
    event: the draws of [Math.random], the string returned by [getUID()], the
    values of [Date.now()].  [_log] only writes to the console and is left
    out. *)

From stdpp Require Import gmap strings list fin_maps.
From Stdlib Require Import ZArith Ascii String DecimalString.

Set Warnings "-clear-no-such-hyp".

Local Open Scope string_scope.
Local Open Scope Z_scope.
Local Open Scope list_scope.

(** ** JavaScript values used by the handlers *)

(** A JS [Set] of strings keeps insertion order: a list without repetition. *)
Definition set_add (x : string) (l : list string) : list string :=
  if decide (x ∈ l) then l else l ++ [x].

Definition set_delete (x : string) (l : list string) : list string :=
  filter (λ y, y ≠ x) l.

(** [String.prototype.toUpperCase] on ASCII text. *)
Definition upper_ascii (c : ascii) : ascii :=
  let n := nat_of_ascii c in
  if ((97 <=? n)%nat && (n <=? 122)%nat)%bool then ascii_of_nat (n - 32) else c.

Fixpoint toUpperCase (s : string) : string :=
  match s with
  | EmptyString => EmptyString
  | String c r => String (upper_ascii c) (toUpperCase r)
  end.

Definition is_lower (c : ascii) : bool :=
  let n := nat_of_ascii c in ((97 <=? n)%nat && (n <=? 122)%nat)%bool.

Definition is_alnum (c : ascii) : bool :=
  let n := nat_of_ascii c in
  (((48 <=? n)%nat && (n <=? 57)%nat)
   || ((65 <=? n)%nat && (n <=? 90)%nat)
   || ((97 <=? n)%nat && (n <=? 122)%nat))%bool.

Fixpoint string_forallb (p : ascii → bool) (s : string) : bool :=
  match s with
  | EmptyString => true
  | String c r => (p c && string_forallb p r)%bool
  end.

(** [getUID = new ShortUniqueId({ length: 10 })]: every call returns ten
    characters of the default alphanumeric dictionary.  The generator is an
    external package; its result is an input of [create-room]. *)
Definition is_uid (u : string) : bool :=
  (Nat.eqb (String.length u) 10 && string_forallb is_alnum u)%bool.

(** socket.io names a socket with twenty characters (base64id). *)
Definition is_socket_id (i : string) : bool := Nat.eqb (String.length i) 20.

(** ** Data model *)

(** One entry of [users] (index.js 288-294). *)
Record User := mkUser {
  id : string;
  name : string;
  ping : Z;
  currentlyWatching : string;
  currentTime : Z
}.

(** The closure handed to [socket.volatile.emit('ping', ...)] (431-435): it
    captures [socket], [start] and the [const currRoom] of the tick. *)
Record PingAck := mkPingAck {
  ack_socket : string;
  ack_start : Z;
  ack_currRoom : string
}.

Record State := mkState {
  users : gmap string User;              (* let users = {} *)
  pingIntervals : gset string;           (* keys of pingIntervals holding a live timer *)
  sids : gmap string (list string);      (* adapter.sids : Map<SocketId, Set<Room>> *)
  rooms : gmap string (list string);     (* adapter.rooms : Map<Room, Set<SocketId>> *)
  acks : gmap nat PingAck;               (* pending acknowledgement callbacks *)
  ids : nat                              (* nsp._ids, the next acknowledgement id *)
}.

Definition initial : State := mkState ∅ ∅ ∅ ∅ ∅ 0.

(** The object passed to a completion callback. *)
Inductive Result :=
| RError (error : option string)
| RUsername (error : option string) (username : string)
| RRoom (error : option string) (roomID : option string)
| RCurrentRoom (room : option string).

Inductive Payload :=
| UserList (usernames : list (option User))
| PlaySignal
| PauseSignal
| SyncSignal (time : Z).

Inductive Output :=
| ToRoom (room : string) (recipients : list string) (p : Payload)
| PingRequest (sid : string) (ackId : nat)
| Callback (sid : string) (r : Result).

Inductive Outcome (A : Type) :=
| Done (a : A)
| Throws (e : string)
| Spins.
Arguments Done {A} a.
Arguments Throws {A} e.
Arguments Spins {A}.

(** ** socket.io in-memory adapter *)

Definition socketRooms (s : State) (sid : string) : list string :=
  default [] (sids s !! sid).

Definition members (s : State) (room : string) : list string :=
  default [] (rooms s !! room).

Definition connected (s : State) (sid : string) : Prop := is_Some (sids s !! sid).

(** [Adapter.addAll(id, new Set([room]))] *)
Definition addAll (sid room : string) (s : State) : State :=
  mkState (users s) (pingIntervals s)
          (<[sid := set_add room (socketRooms s sid)]> (sids s))
          (<[room := set_add sid (members s room)]> (rooms s))
          (acks s) (ids s).

(** [Adapter._del(room, id)]: an emptied room is deleted from the map. *)
Definition _del (room sid : string) (rs : gmap string (list string))
  : gmap string (list string) :=
  match rs !! room with
  | Some m =>
      match set_delete sid m with
      | [] => delete room rs
      | m' => <[room := m']> rs
      end
  | None => rs
  end.

(** [Adapter.del(id, room)] *)
Definition del (sid room : string) (s : State) : State :=
  mkState (users s) (pingIntervals s)
          (match sids s !! sid with
           | Some l => <[sid := set_delete room l]> (sids s)
           | None => sids s
           end)
          (_del room sid (rooms s))
          (acks s) (ids s).

(** [Adapter.delAll(id)] *)
Definition delAll (sid : string) (s : State) : State :=
  match sids s !! sid with
  | None => s
  | Some l =>
      mkState (users s) (pingIntervals s)
              (delete sid (sids s))
              (foldl (λ rs room, _del room sid rs) (rooms s) l)
              (acks s) (ids s)
  end.

(** [socket.join(room)]; after the socket is cleaned up [join] is a no-op. *)
Definition socket_join (sid room : string) (s : State) : State :=
  match sids s !! sid with
  | Some _ => addAll sid room s
  | None => s
  end.

(** [socket.leave(room)] *)
Definition socket_leave (sid room : string) (s : State) : State := del sid room s.

(** ** Functions of index.js *)

(** [getCurrentRoom] (254-256): [Array.from(socket.rooms)[1]]. *)
Definition getCurrentRoom (s : State) (sid : string) : option string :=
  socketRooms s sid !! 1%nat.

(** [if (currRoom)]: [undefined] and the empty string are falsy. *)
Definition truthy (v : option string) : option string :=
  match v with
  | Some c => if decide (c = "") then None else Some c
  | None => None
  end.

(** [io.to(room).emit(...)]: one message to the sockets now in [room]. *)
Definition io_to_emit (s : State) (room : string) (p : Payload) : list Output :=
  [ToRoom room (members s room) p].

(** [emitUserList] (258-266). *)
Definition emitUserList (s : State) (room : string) : list Output :=
  match rooms s !! room with
  | None => []
  | Some usersInRoom =>
      [ToRoom room usersInRoom (UserList ((λ socketId, users s !! socketId) <$> usersInRoom))]
  end.

Definition defaultUsernamePrefixes : list string :=
  ["Awesome"; "Cool"; "Great"; "Super"; "Interesting"; "Funny"; "Curious";
   "Fantastic"; "Wholesome"; "Silly"; "Lame"; "Smart"; "Smartest"; "Pretty"].

Definition defaultUsernameSuffixes : list string :=
  ["Giraffe"; "Panda"; "Lion"; "Tiger"; "Bear"; "Monkey"; "Elephant";
   "Gorilla"; "Hippo"; "Whale"; "Shark"; "Dolphin"; "Penguin"; "Pig"; "Cow";
   "Chicken"; "Dog"; "Cat"; "Horse"; "Puppy"; "Kitten"].

(** [Object.values(users).map((user) => user.name)] *)
Definition usernames (s : State) : list string :=
  (λ kv, name kv.2) <$> map_to_list (users s).

(** One round of the loop body: a draw is the pair of indices
    [Math.floor(Math.random() * length)]; an index outside the table would
    print as [undefined]. *)
Definition username_of_draw (d : nat * nat) : string :=
  (nth d.1 defaultUsernamePrefixes "undefined" ++ " " ++
   nth d.2 defaultUsernameSuffixes "undefined")%string.

(** [Math.floor(Math.random() * length)] lies inside the table. *)
Definition is_draw (d : nat * nat) : bool :=
  ((d.1 <? List.length defaultUsernamePrefixes)%nat
   && (d.2 <? List.length defaultUsernameSuffixes)%nat)%bool.

(** [getRandomUsername] (268-280).  The draws are consumed one per round;
    [None] means that every supplied draw collided and the loop is still
    running. *)
Fixpoint getRandomUsername (s : State) (draws : list (nat * nat)) : option string :=
  match draws with
  | [] => None
  | d :: rest =>
      let username := username_of_draw d in
      if decide (username ∈ usernames s) then getRandomUsername s rest
      else Some username
  end.

(** ** Handlers registered in [io.on('connection', ...)] *)

Definition set_users (f : gmap string User → gmap string User) (s : State) : State :=
  mkState (f (users s)) (pingIntervals s) (sids s) (rooms s) (acks s) (ids s).

(** The block shared by [disconnecting], [create-room] and [join-room]:
    [if (currRoom) { socket.leave(currRoom); emitUserList(currRoom); }] *)
Definition leaveCurrent (sid : string) (s : State) : State * list Output :=
  match truthy (getCurrentRoom s sid) with
  | Some currRoom =>
      let s1 := socket_leave sid currRoom s in (s1, emitUserList s1 currRoom)
  | None => (s, [])
  end.

(** Lines 285-294 and 425-436: socket.io has already joined the socket to
    the room named by its own id when the callback runs; the callback stores
    the presence record and starts the interval. *)
Definition on_connection (sid : string) (draws : list (nat * nat)) (s : State)
  : Outcome (State * list Output) :=
  let s0 := addAll sid sid s in
  match getRandomUsername s0 draws with
  | None => Spins
  | Some username =>
      Done (mkState (<[sid := mkUser sid username 0 "" 0]> (users s0))
                    ({[sid]} ∪ pingIntervals s0)
                    (sids s0) (rooms s0) (acks s0) (ids s0), [])
  end.

(** [disconnecting] (296-302) *)
Definition on_disconnecting (sid : string) (s : State) : State * list Output :=
  leaveCurrent sid s.

(** [disconnect] (304-311) *)
Definition on_disconnect (sid : string) (s : State) : State :=
  mkState (delete sid (users s))
          (if decide (sid ∈ pingIntervals s) then pingIntervals s ∖ {[sid]}
           else pingIntervals s)
          (sids s) (rooms s) (acks s) (ids s).

(** Closing a socket: [disconnecting] fires, socket.io leaves every room
    ([leaveAll]), then [disconnect] fires, all in one turn of the loop. *)
Definition on_close (sid : string) (s : State) : Outcome (State * list Output) :=
  let '(s1, out) := on_disconnecting sid s in
  Done (on_disconnect sid (delAll sid s1), out).

(** [change-username] (313-323) *)
Definition on_change_username (sid newName : string) (s : State)
  : Outcome (State * list Output) :=
  match users s !! sid with
  | None => Throws "TypeError"
  | Some u =>
      let s1 := set_users (insert sid
                  (mkUser (id u) newName (ping u) (currentlyWatching u) (currentTime u))) s in
      let out := match truthy (getCurrentRoom s1 sid) with
                 | Some currRoom => emitUserList s1 currRoom
                 | None => []
                 end in
      Done (s1, out ++ [Callback sid (RError None)])
  end.

(** [get-username] (325-330) *)
Definition on_get_username (sid : string) (s : State) : Outcome (State * list Output) :=
  match users s !! sid with
  | None => Throws "TypeError"
  | Some u => Done (s, [Callback sid (RUsername None (name u))])
  end.

(** [create-room] (332-346); [uid] is what [getUID()] returned. *)
Definition on_create_room (sid uid : string) (s : State) : Outcome (State * list Output) :=
  let '(s1, out1) := leaveCurrent sid s in
  let newRoomID := toUpperCase uid in
  let s2 := socket_join sid newRoomID s1 in
  Done (s2, out1 ++ emitUserList s2 newRoomID
               ++ [Callback sid (RRoom None (Some newRoomID))]).

(** [join-room] (348-370) *)
Definition on_join_room (sid room : string) (s : State) : Outcome (State * list Output) :=
  match rooms s !! room with
  | Some _ =>
      let '(s1, out1) := leaveCurrent sid s in
      let s2 := socket_join sid room s1 in
      Done (s2, out1 ++ emitUserList s2 room
                   ++ [Callback sid (RRoom None (Some room))])
  | None =>
      Done (s, [Callback sid (RRoom (Some "Room does not exist") None)])
  end.

(** [leave-room] (372-387) *)
Definition on_leave_room (sid : string) (s : State) : Outcome (State * list Output) :=
  match truthy (getCurrentRoom s sid) with
  | Some currRoom =>
      let s1 := socket_leave sid currRoom s in
      Done (s1, emitUserList s1 currRoom ++ [Callback sid (RError None)])
  | None => Done (s, [Callback sid (RError (Some "No room to leave"))])
  end.

(** [get-current-room] (389-391) *)
Definition on_get_current_room (sid : string) (s : State) : Outcome (State * list Output) :=
  Done (s, [Callback sid (RCurrentRoom (getCurrentRoom s sid))]).

(** [play], [pause], [sync] (393-415) *)
Definition relay (sid : string) (p : Payload) (s : State) : Outcome (State * list Output) :=
  match truthy (getCurrentRoom s sid) with
  | Some currRoom => Done (s, io_to_emit s currRoom p)
  | None => Done (s, [])
  end.

Definition on_play (sid : string) := relay sid PlaySignal.
Definition on_pause (sid : string) := relay sid PauseSignal.
Definition on_sync (sid : string) (time : Z) := relay sid (SyncSignal time).

(** [currentlyWatching] (417-423); [movieId] arrives as a string, on which
    [String(...)] is the identity. *)
Definition on_currentlyWatching (sid movieId : string) (time : Z) (s : State)
  : Outcome (State * list Output) :=
  match truthy (getCurrentRoom s sid) with
  | Some _ =>
      match users s !! sid with
      | None => Throws "TypeError"
      | Some u =>
          Done (set_users (insert sid (mkUser (id u) (name u) (ping u) movieId time)) s, [])
      end
  | None => Done (s, [])
  end.

(** The interval callback (425-436); [now] is [Date.now()].  Emitting with a
    callback registers it under the next acknowledgement id. *)
Definition on_tick (sid : string) (now : Z) (s : State) : Outcome (State * list Output) :=
  match truthy (getCurrentRoom s sid) with
  | None => Done (s, [])
  | Some currRoom =>
      Done (mkState (users s) (pingIntervals s) (sids s) (rooms s)
                    (<[ids s := mkPingAck sid now currRoom]> (acks s)) (S (ids s)),
            [PingRequest sid (ids s)])
  end.

(** The reply to a probe: socket.io looks the callback up, runs it (431-435)
    and forgets it; [now] is [Date.now()] inside the callback. *)
Definition on_ping_reply (ackId : nat) (now : Z) (s : State) : Outcome (State * list Output) :=
  match acks s !! ackId with
  | None => Done (s, [])
  | Some a =>
      match users s !! ack_socket a with
      | None => Throws "TypeError"
      | Some u =>
          let s1 := mkState (<[ack_socket a :=
                               mkUser (id u) (name u) (now - ack_start a)
                                      (currentlyWatching u) (currentTime u)]> (users s))
                            (pingIntervals s) (sids s) (rooms s)
                            (delete ackId (acks s)) (ids s) in
          Done (s1, emitUserList s1 (ack_currRoom a))
      end
  end.

(** ** The event loop *)

(** The events of the model.  A client event carries what the handler
    expects: a string for a name, a room or a media id, a number for a time,
    and, for the six events that answer ([change-username], [get-username],
    [create-room], [join-room], [leave-room], [get-current-room]), the
    acknowledgement function that the handler calls.  The same events sent
    without that function are [step_without_callback] below. *)
Inductive Event :=
| Connection (sid : string) (draws : list (nat * nat))
| Close (sid : string)
| ChangeUsername (sid newName : string)
| GetUsername (sid : string)
| CreateRoom (sid uid : string)
| JoinRoom (sid room : string)
| LeaveRoom (sid : string)
| GetCurrentRoom (sid : string)
| Play (sid : string)
| Pause (sid : string)
| Sync (sid : string) (time : Z)
| CurrentlyWatching (sid movieId : string) (time : Z)
| Tick (sid : string) (now : Z)
| PingReply (ackId : nat) (now : Z).

Definition step (s : State) (e : Event) : Outcome (State * list Output) :=
  match e with
  | Connection sid draws => on_connection sid draws s
  | Close sid => on_close sid s
  | ChangeUsername sid newName => on_change_username sid newName s
  | GetUsername sid => on_get_username sid s
  | CreateRoom sid uid => on_create_room sid uid s
  | JoinRoom sid room => on_join_room sid room s
  | LeaveRoom sid => on_leave_room sid s
  | GetCurrentRoom sid => on_get_current_room sid s
  | Play sid => on_play sid s
  | Pause sid => on_pause sid s
  | Sync sid time => on_sync sid time s
  | CurrentlyWatching sid movieId time => on_currentlyWatching sid movieId time s
  | Tick sid now => on_tick sid now s
  | PingReply ackId now => on_ping_reply ackId now s
  end.

(** When the runtime can deliver an event of the model: a new socket has a
    fresh id and draws indices inside the two tables; a client event or a
    close comes from a connected socket; [getUID()] returns a uid; a tick
    needs its interval; a reply needs its pending callback. *)
Definition enabled (s : State) (e : Event) : Prop :=
  match e with
  | Connection sid draws =>
      sids s !! sid = None ∧ is_socket_id sid = true ∧ forallb is_draw draws = true
  | CreateRoom sid uid => connected s sid ∧ is_uid uid = true
  | Close sid | ChangeUsername sid _ | GetUsername sid | JoinRoom sid _
  | LeaveRoom sid | GetCurrentRoom sid | Play sid | Pause sid | Sync sid _
  | CurrentlyWatching sid _ _ => connected s sid
  | Tick sid _ => sid ∈ pingIntervals s
  | PingReply ackId _ => is_Some (acks s !! ackId)
  end.

Inductive reachable : State → Prop :=
| reachable_initial : reachable initial
| reachable_step s e s' out :
    reachable s → enabled s e → step s e = Done (s', out) → reachable s'.

#[global] Instance enabled_dec s e : Decision (enabled s e).
Proof. destruct e; simpl; unfold connected; apply _. Defined.

(** Running a list of events from a state, collecting what each one emitted. *)
Fixpoint run (s : State) (es : list Event) : Outcome (State * list (list Output)) :=
  match es with
  | [] => Done (s, [])
  | e :: rest =>
      match step s e with
      | Done (s', out) =>
          match run s' rest with
          | Done (s'', outs) => Done (s'', out :: outs)
          | Throws m => Throws m
          | Spins => Spins
          end
      | Throws m => Throws m
      | Spins => Spins
      end
  end.

(** Running only the events that the runtime can deliver. *)
Fixpoint exec (s : State) (es : list Event) : option State :=
  match es with
  | [] => Some s
  | e :: rest =>
      if decide (enabled s e) then
        match step s e with
        | Done (s', _) => exec s' rest
        | _ => None
        end
      else None
  end.

(** ** Concrete runs *)

Definition sidA : string := "AAAAAAAAAAAAAAAAAAAA".
Definition sidB : string := "BBBBBBBBBBBBBBBBBBBB".

Definition state_after (es : list Event) : State := default initial (exec initial es).

Definition runs (es : list Event) : bool :=
  match exec initial es with Some _ => true | None => false end.

(** One socket, in no room. *)
Definition alone_events : list Event := [Connection sidA [(0, 0)%nat]].
Definition alone : State := state_after alone_events.

(** Two sockets in the room created by the first. *)
Definition pair_events : list Event :=
  [Connection sidA [(0, 0)%nat]; Connection sidB [(0, 0)%nat; (1, 2)%nat];
   CreateRoom sidA "room000001"; JoinRoom sidB "ROOM000001"].
Definition pair : State := state_after pair_events.

(** The second socket is probed, then creates a room of its own before the
    reply arrives. *)
Definition moved_events : list Event :=
  pair_events ++ [Tick sidB 1000; CreateRoom sidB "room000002"].
Definition moved : State := state_after moved_events.

(** A socket is probed in its room and closes before the reply arrives. *)
Definition closed_events : list Event :=
  [Connection sidA [(0, 0)%nat]; CreateRoom sidA "room000001"; Tick sidA 1000;
   Close sidA].
Definition closed : State := state_after closed_events.

(** Two sockets; the first has joined the private room of the second. *)
Definition guest_events : list Event :=
  [Connection sidA [(0, 0)%nat]; Connection sidB [(1, 1)%nat]; JoinRoom sidA sidB].
Definition guest : State := state_after guest_events.

(** Two sockets; the first holds the room made from the uid [aaaaaaaaaa]. *)
Definition one_room_events : list Event :=
  [Connection sidA [(0, 0)%nat]; Connection sidB [(1, 1)%nat];
   CreateRoom sidA "aaaaaaaaaa"].
Definition one_room : State := state_after one_room_events.

(** Every default name is taken: one socket per prefix and suffix, the
    [i]-th one drawing the [i]-th pair. *)
Definition all_draws : list (nat * nat) :=
  d1 ← seq 0 (List.length defaultUsernamePrefixes);
  d2 ← seq 0 (List.length defaultUsernameSuffixes);
  [(d1, d2)].

Definition sid_of_nat (n : nat) : string :=
  substring 0 20 (NilZero.string_of_uint (Nat.to_uint n) ++ "--------------------")%string.

Definition full_house_events : list Event :=
  imap (λ i d, Connection (sid_of_nat i) [d]) all_draws.

Definition names_exhausted (s : State) : bool :=
  let taken := usernames s in
  forallb (λ d, bool_decide (username_of_draw d ∈ taken)) all_draws.

(** The events run, leave every default name taken, and leave [sid] free. *)
Definition exhausts (es : list Event) (sid : string) : bool :=
  match exec initial es with
  | Some s => (names_exhausted s && bool_decide (sids s !! sid = None))%bool
  | None => false
  end.

(** ** Vocabulary of the statements *)

(** The member list of a room in a bare room map. *)
Definition mem (rs : gmap string (list string)) (r : string) : list string :=
  default [] (rs !! r).

(** No stored room is empty. *)
Definition rooms_ok (rs : gmap string (list string)) : Prop :=
  ∀ r m, rs !! r = Some m → m ≠ [].

(** The part that speaks of the adapter only. *)
Record AdapterInv (s : State) : Prop := mkAdapterInv {
  (* socket.rooms is the private room, then at most one room code *)
  inv_shape : ∀ sid, connected s sid →
      socketRooms s sid = [sid] ∨ ∃ c, c ≠ sid ∧ socketRooms s sid = [sid; c];
  inv_sid : ∀ sid, connected s sid → is_socket_id sid = true;
  inv_names : ∀ r x, x ∈ members s r → r ≠ "";
  inv_rooms_ok : rooms_ok (rooms s);
  (* adapter.rooms and adapter.sids describe the same relation *)
  inv_consistent : ∀ x r, x ∈ members s r ↔ r ∈ socketRooms s x
}.

(** The invariant of the event loop. *)
Record Inv (s : State) : Prop := mkInv {
  inv_adapter : AdapterInv s;
  inv_users : ∀ sid, is_Some (users s !! sid) ↔ connected s sid;
  inv_timers : ∀ sid, sid ∈ pingIntervals s ↔ connected s sid
}.

(** The rooms that received a [user-list], in emission order. *)
Definition presence_rooms (out : list Output) : list string :=
  omap (λ o, match o with ToRoom r _ (UserList _) => Some r | _ => None end) out.

(** The room a socket is about to leave, if somebody stays behind in it. *)
Definition old_broadcast (s : State) (sid : string) : list string :=
  match getCurrentRoom s sid with
  | Some c => if decide (set_delete sid (members s c) = []) then [] else [c]
  | None => []
  end.

(** ** The first version of the file (index.js 1-194)

    The file opens with an earlier version of the server.  Its records hold
    [id] and [name] only, and its [emitUserList] sends display names instead
    of records. *)
Module V1.

Record User := mkUser {
  id : string;
  name : string
}.

(** The loop body [usernames.push(users[socketId].name || 'Anonymous')]
    over the members of the room (67-69): a member without a record makes
    the property access throw; an empty name is falsy. *)
Fixpoint collect (users : gmap string User) (usersInRoom : list string)
  : Outcome (list string) :=
  match usersInRoom with
  | [] => Done []
  | socketId :: rest =>
      match users !! socketId with
      | None => Throws "TypeError"
      | Some u =>
          match collect users rest with
          | Done usernames =>
              Done ((if decide (name u = "") then "Anonymous" else name u) :: usernames)
          | Throws e => Throws e
          | Spins => Spins
          end
      end
  end.

(** [emitUserList] (63-71): [None] when the room does not exist, else the
    recipients and the list sent as [user-list]. *)
Definition emitUserList (users : gmap string User)
    (rooms : gmap string (list string)) (room : string)
  : Outcome (option (list string * list string)) :=
  match rooms !! room with
  | None => Done None
  | Some usersInRoom =>
      match collect users usersInRoom with
      | Done usernames => Done (Some (usersInRoom, usernames))
      | Throws e => Throws e
      | Spins => Spins
      end
  end.

End V1.

(** ** Further vocabulary *)

(** The socket on whose behalf an event runs: the sender of a client event,
    the owner of a timer, the socket captured by a reply callback. *)
Definition actor (s : State) (e : Event) : option string :=
  match e with
  | Connection sid _ | Close sid | ChangeUsername sid _ | GetUsername sid
  | CreateRoom sid _ | JoinRoom sid _ | LeaveRoom sid | GetCurrentRoom sid
  | Play sid | Pause sid | Sync sid _ | CurrentlyWatching sid _ _
  | Tick sid _ => Some sid
  | PingReply ackId _ => ack_socket <$> acks s !! ackId
  end.

(** Every presence record is stored under its own [id]. *)
Definition record_ids (s : State) : Prop :=
  ∀ sid u, users s !! sid = Some u → id u = sid.

(** No room lists a socket twice. *)
Definition rooms_nodup (rs : gmap string (list string)) : Prop :=
  ∀ r m, rs !! r = Some m → NoDup m.

(** What an event leads to and emits, for use on concrete runs. *)
Definition next (s : State) (e : Event) : State :=
  match step s e with Done (s', _) => s' | _ => s end.

Definition emitted (s : State) (e : Event) : list Output :=
  match step s e with Done (_, out) => out | _ => [] end.

(** One socket, alone in the room it created. *)
Definition host_events : list Event :=
  [Connection sidA [(0, 0)%nat]; CreateRoom sidA "room000001"].
Definition host : State := state_after host_events.

(** The same with a second socket connected, in no room yet. *)
Definition lobby_events : list Event :=
  [Connection sidA [(0, 0)%nat]; Connection sidB [(0, 0)%nat; (1, 2)%nat];
   CreateRoom sidA "room000001"].
Definition lobby : State := state_after lobby_events.

(** ** Events that do not run to their end *)



(** The events that run to their end: a connection needs a draw that gives
    a free name, a probe reply needs the record of its socket. *)
Definition completes (s : State) (e : Event) : Prop :=
  match e with
  | Connection _ draws => ∃ d, d ∈ draws ∧ username_of_draw d ∉ usernames s
  | PingReply ackId _ => ∀ a, acks s !! ackId = Some a → connected s (ack_socket a)
  | _ => True
  end.

(** Three sockets: A has joined the private room of B, B has then created a
    room, which C has joined. *)
Definition sidC : string := "CCCCCCCCCCCCCCCCCCCC".
Definition two_rooms_events : list Event :=
  [Connection sidA [(0, 0)%nat]; Connection sidB [(1, 1)%nat];
   Connection sidC [(2, 2)%nat]; JoinRoom sidA sidB;
   CreateRoom sidB "room000001"; JoinRoom sidC "ROOM000001"].
Definition two_rooms : State := state_after two_rooms_events.

(** * Verification *)

(** ** Insertion-ordered sets *)

Lemma elem_of_set_add x y l : x ∈ set_add y l ↔ x = y ∨ x ∈ l.
Proof.
  unfold set_add. destruct (decide (y ∈ l)).
  - split; [by right | by intros [->|]].
  - rewrite elem_of_app, list_elem_of_singleton. tauto.
Qed.

Lemma elem_of_set_delete x y l : x ∈ set_delete y l ↔ x ≠ y ∧ x ∈ l.
Proof. unfold set_delete. by rewrite list_elem_of_filter. Qed.

Lemma set_add_nonempty x l : set_add x l ≠ [].
Proof.
  intros H. assert (x ∈ set_add x l) as Hx by (apply elem_of_set_add; by left).
  rewrite H in Hx. by apply not_elem_of_nil in Hx.
Qed.

Lemma set_delete_absent x l : x ∉ l → set_delete x l = l.
Proof.
  unfold set_delete. induction l as [|a l IH]; [done|].
  rewrite not_elem_of_cons. intros [Hne Hl].
  rewrite filter_cons_True by congruence. by rewrite IH.
Qed.

Lemma set_delete_idemp x l : set_delete x (set_delete x l) = set_delete x l.
Proof. apply set_delete_absent. rewrite elem_of_set_delete. by intros [? _]. Qed.

(** ** The adapter, seen through [socketRooms] and [members] *)



Lemma mem_del room sid rs r :
  mem (_del room sid rs) r
  = if decide (r = room) then set_delete sid (mem rs room) else mem rs r.
Proof.
  unfold mem, _del. destruct (rs !! room) as [m|] eqn:Hm.
  - destruct (set_delete sid m) as [|a m'] eqn:Hd.
    + case_decide as Hr; [subst; by rewrite lookup_delete_eq
                         | by rewrite lookup_delete_ne].
    + case_decide as Hr; [subst; by rewrite lookup_insert_eq
                         | by rewrite lookup_insert_ne].
  - case_decide as Hr; [subst; by rewrite Hm | done].
Qed.

Lemma rooms_ok_del room sid rs : rooms_ok rs → rooms_ok (_del room sid rs).
Proof.
  intros Hok r m. unfold _del. destruct (rs !! room) as [m0|] eqn:Hm; [|apply Hok].
  destruct (set_delete sid m0) as [|a m'] eqn:Hd.
  - destruct (decide (r = room)) as [->|Hr];
      [by rewrite lookup_delete_eq | rewrite lookup_delete_ne by done; apply Hok].
  - destruct (decide (r = room)) as [->|Hr].
    + rewrite lookup_insert_eq. intros [= <-]. done.
    + rewrite lookup_insert_ne by done. apply Hok.
Qed.

Lemma rooms_ok_lookup rs r : rooms_ok rs → rs !! r = None ↔ mem rs r = [].
Proof.
  intros Hok. unfold mem. destruct (rs !! r) as [m|] eqn:Hm; simpl; [|done].
  split; [done|]. intros ->. by destruct (Hok r [] Hm).
Qed.

Lemma mem_foldl_del sid l rs r :
  mem (foldl (λ rs room, _del room sid rs) rs l) r
  = if decide (r ∈ l) then set_delete sid (mem rs r) else mem rs r.
Proof.
  revert rs. induction l as [|a l IH]; intros rs; cbn [foldl].
  - destruct (decide (r ∈ [])) as [H|]; [by apply not_elem_of_nil in H | done].
  - rewrite IH, mem_del.
    destruct (decide (r = a)) as [->|Hra].
    + destruct (decide (a ∈ a :: l)) as [_|Hn]; [|destruct Hn; left].
      destruct (decide (a ∈ l)); [apply set_delete_idemp | done].
    + destruct (decide (r ∈ l)) as [Hl|Hl];
        destruct (decide (r ∈ a :: l)) as [Hal|Hal]; try done.
      * destruct Hal. by right.
      * apply elem_of_cons in Hal as [?|?]; done.
Qed.

Lemma rooms_ok_foldl_del sid l rs :
  rooms_ok rs → rooms_ok (foldl (λ rs room, _del room sid rs) rs l).
Proof.
  revert rs. induction l as [|a l IH]; intros rs Hok; simpl; [done|].
  apply IH. by apply rooms_ok_del.
Qed.

Lemma members_addAll sid room s r :
  members (addAll sid room s) r
  = if decide (r = room) then set_add sid (members s room) else members s r.
Proof.
  unfold members; simpl. case_decide as Hr;
    [subst; by rewrite lookup_insert_eq | by rewrite lookup_insert_ne].
Qed.

Lemma socketRooms_addAll sid room s x :
  socketRooms (addAll sid room s) x
  = if decide (x = sid) then set_add room (socketRooms s sid) else socketRooms s x.
Proof.
  unfold socketRooms; simpl. case_decide as Hx;
    [subst; by rewrite lookup_insert_eq | by rewrite lookup_insert_ne].
Qed.

Lemma members_del sid room s r :
  members (del sid room s) r
  = if decide (r = room) then set_delete sid (members s room) else members s r.
Proof. apply mem_del. Qed.

Lemma socketRooms_del sid room s x :
  socketRooms (del sid room s) x
  = if decide (x = sid) then set_delete room (socketRooms s sid) else socketRooms s x.
Proof.
  unfold socketRooms; simpl. destruct (sids s !! sid) as [l|] eqn:Hl.
  - case_decide as Hx; [subst; by rewrite lookup_insert_eq | by rewrite lookup_insert_ne].
  - case_decide as Hx; [subst; by rewrite Hl | done].
Qed.

Lemma members_delAll sid s r :
  members (delAll sid s) r
  = if decide (r ∈ socketRooms s sid) then set_delete sid (members s r) else members s r.
Proof.
  unfold delAll, socketRooms. destruct (sids s !! sid) as [l|] eqn:Hl; simpl.
  - apply mem_foldl_del.
  - destruct (decide (r ∈ [])) as [H|]; [by apply not_elem_of_nil in H | done].
Qed.

Lemma socketRooms_delAll sid s x :
  socketRooms (delAll sid s) x = if decide (x = sid) then [] else socketRooms s x.
Proof.
  unfold delAll, socketRooms. destruct (sids s !! sid) as [l|] eqn:Hl; simpl.
  - case_decide as Hx; [subst; by rewrite lookup_delete_eq | by rewrite lookup_delete_ne].
  - case_decide as Hx; [subst; by rewrite Hl | done].
Qed.

Lemma connected_addAll sid room s x :
  connected (addAll sid room s) x ↔ x = sid ∨ connected s x.
Proof.
  unfold connected; simpl. rewrite lookup_insert_is_Some.
  destruct (decide (sid = x)); naive_solver.
Qed.

Lemma connected_del sid room s x : connected (del sid room s) x ↔ connected s x.
Proof.
  unfold connected; simpl. destruct (sids s !! sid) as [l|] eqn:Hl; [|done].
  rewrite lookup_insert_is_Some. destruct (decide (sid = x)) as [->|]; [|naive_solver].
  rewrite Hl. naive_solver.
Qed.

Lemma connected_delAll sid s x : connected (delAll sid s) x ↔ x ≠ sid ∧ connected s x.
Proof.
  unfold connected, delAll. destruct (sids s !! sid) as [l|] eqn:Hl; simpl.
  - rewrite lookup_delete_is_Some. naive_solver.
  - split; [|tauto]. intros Hx. split; [|done]. intros ->. rewrite Hl in Hx.
    by destruct Hx.
Qed.

Lemma socketRooms_not_connected s sid : ¬ connected s sid → socketRooms s sid = [].
Proof.
  unfold connected, socketRooms. destruct (sids s !! sid); [|done].
  intros H. destruct H. eauto.
Qed.

(** ** The invariant of the event loop *)



Lemma AdapterInv_ext s s' :
  sids s' = sids s → rooms s' = rooms s → AdapterInv s → AdapterInv s'.
Proof.
  destruct s, s'; simpl. intros -> -> [H1 H2 H3 H4 H5]. by split.
Qed.

Lemma Inv_initial : Inv initial.
Proof.
  split; [split|..]; unfold connected, socketRooms, members, rooms_ok; simpl.
  - intros sid [l Hl]. by rewrite lookup_empty in Hl.
  - intros sid [l Hl]. by rewrite lookup_empty in Hl.
  - intros r x. rewrite lookup_empty. simpl. by intros ?%not_elem_of_nil.
  - intros r m. by rewrite lookup_empty.
  - intros x r. rewrite !lookup_empty. simpl. split; by intros ?%not_elem_of_nil.
  - intros sid. rewrite !lookup_empty. split; by intros [? ?].
  - intros sid. rewrite lookup_empty. split; [by intros ?%not_elem_of_empty | by intros [? ?]].
Qed.

Lemma socket_id_nonempty sid : is_socket_id sid = true → sid ≠ "".
Proof. by intros H ->. Qed.

Lemma private_room s sid : AdapterInv s → connected s sid → sid ∈ members s sid.
Proof.
  intros HI Hc. apply (inv_consistent s HI).
  destruct (inv_shape s HI sid Hc) as [->|(c & _ & ->)]; left.
Qed.

Lemma socketRooms_connected s sid r : r ∈ socketRooms s sid → connected s sid.
Proof.
  intros Hr. destruct (decide (connected s sid)) as [|Hn]; [done|].
  rewrite socketRooms_not_connected in Hr by done. by apply not_elem_of_nil in Hr.
Qed.

(** Under the invariant the truthiness test on the current room never drops
    a room: no room is named by the empty string. *)
Lemma truthy_getCurrentRoom s sid :
  AdapterInv s → truthy (getCurrentRoom s sid) = getCurrentRoom s sid.
Proof.
  intros HI. unfold truthy. destruct (getCurrentRoom s sid) as [c|] eqn:Hc; [|done].
  destruct (decide (c = "")) as [->|]; [|done].
  unfold getCurrentRoom in Hc. apply list_elem_of_lookup_2 in Hc.
  apply (inv_consistent s HI) in Hc. by apply (inv_names s HI) in Hc.
Qed.

Lemma getCurrentRoom_cases s sid :
  AdapterInv s → connected s sid →
  (socketRooms s sid = [sid] ∧ getCurrentRoom s sid = None)
  ∨ (∃ c, c ≠ sid ∧ c ≠ "" ∧ socketRooms s sid = [sid; c]
          ∧ getCurrentRoom s sid = Some c).
Proof.
  intros HI Hc. unfold getCurrentRoom.
  destruct (inv_shape s HI sid Hc) as [H|(c & Hne & H)]; rewrite H.
  - by left.
  - right. exists c. split_and!; try done.
    apply (inv_names s HI c sid), (inv_consistent s HI). rewrite H. set_solver.
Qed.

Lemma set_delete_pair sid c : c ≠ sid → set_delete c [sid; c] = [sid].
Proof.
  intros Hne. unfold set_delete.
  rewrite filter_cons_True by congruence.
  rewrite filter_cons_False by (intros H; by apply H). done.
Qed.

(** [socket.leave(c)] on a socket whose rooms are [sid; c]. *)
Lemma AdapterInv_del s sid c :
  AdapterInv s → connected s sid → c ≠ sid → socketRooms s sid = [sid; c] →
  AdapterInv (del sid c s) ∧ socketRooms (del sid c s) sid = [sid].
Proof.
  intros HI Hc Hne Hr.
  assert (socketRooms (del sid c s) sid = [sid]) as Hr'.
  { rewrite socketRooms_del, decide_True by done. rewrite Hr. by apply set_delete_pair. }
  split; [|done]. split.
  - intros x Hx. apply connected_del in Hx.
    destruct (decide (x = sid)) as [->|Hxs]; [by left|].
    rewrite socketRooms_del, decide_False by done. by apply (inv_shape s HI).
  - intros x Hx. apply connected_del in Hx. by apply (inv_sid s HI).
  - intros r x. rewrite members_del. case_decide; subst.
    + rewrite elem_of_set_delete. intros [_ H]. by apply (inv_names s HI) in H.
    + apply (inv_names s HI).
  - apply rooms_ok_del, (inv_rooms_ok s HI).
  - intros x r. rewrite members_del, socketRooms_del.
    pose proof (inv_consistent s HI x r) as Hxr.
    destruct (decide (r = c)) as [->|Hrc], (decide (x = sid)) as [->|Hxs];
      rewrite ?elem_of_set_delete; try done.
    + rewrite Hr in *. set_solver.
    + rewrite Hxr. naive_solver.
    + rewrite Hxr. naive_solver.
Qed.

(** [socket.join(room)] on a socket that is in its private room only. *)
Lemma AdapterInv_addAll s sid room :
  AdapterInv s → connected s sid → room ≠ "" → socketRooms s sid = [sid] →
  AdapterInv (addAll sid room s)
  ∧ socketRooms (addAll sid room s) sid
    = if decide (room = sid) then [sid] else [sid; room].
Proof.
  intros HI Hc Hne Hr.
  assert (socketRooms (addAll sid room s) sid
          = if decide (room = sid) then [sid] else [sid; room]) as Hr'.
  { rewrite socketRooms_addAll, decide_True by done. rewrite Hr. unfold set_add.
    destruct (decide (room = sid)) as [->|Hrs].
    - by rewrite decide_True by left.
    - rewrite decide_False; [done|]. by rewrite list_elem_of_singleton. }
  split; [|done]. split.
  - intros x Hx. destruct (decide (x = sid)) as [->|Hxs].
    + rewrite Hr'. case_decide; [by left|right; eauto].
    + rewrite socketRooms_addAll, decide_False by done.
      apply (inv_shape s HI). apply connected_addAll in Hx. naive_solver.
  - intros x Hx. apply connected_addAll in Hx as [->|Hx]; by apply (inv_sid s HI).
  - intros r x. rewrite members_addAll.
    destruct (decide (r = room)) as [->|_]; [by intros _ | apply (inv_names s HI)].
  - intros r m. cbn [rooms addAll]. destruct (decide (r = room)) as [->|Hrr].
    + rewrite lookup_insert_eq. intros [= <-]. apply set_add_nonempty.
    + rewrite lookup_insert_ne by done. apply (inv_rooms_ok s HI).
  - intros x r. rewrite members_addAll, socketRooms_addAll.
    pose proof (inv_consistent s HI x r) as Hxr.
    destruct (decide (r = room)) as [->|Hrc], (decide (x = sid)) as [->|Hxs];
      rewrite ?elem_of_set_add; try done.
    + naive_solver.
    + rewrite Hxr. naive_solver.
    + rewrite Hxr. naive_solver.
Qed.

(** A new socket joins the room named by its own id. *)
Lemma AdapterInv_addAll_fresh s sid :
  AdapterInv s → ¬ connected s sid → is_socket_id sid = true →
  AdapterInv (addAll sid sid s) ∧ socketRooms (addAll sid sid s) sid = [sid].
Proof.
  intros HI Hc Hid. pose proof (socketRooms_not_connected s sid Hc) as Hr.
  assert (socketRooms (addAll sid sid s) sid = [sid]) as Hr'.
  { rewrite socketRooms_addAll, decide_True by done. by rewrite Hr. }
  split; [|done]. split.
  - intros x Hx. destruct (decide (x = sid)) as [->|Hxs]; [by left|].
    rewrite socketRooms_addAll, decide_False by done.
    apply (inv_shape s HI). apply connected_addAll in Hx. naive_solver.
  - intros x Hx. apply connected_addAll in Hx as [->|Hx]; [done|by apply (inv_sid s HI)].
  - intros r x. rewrite members_addAll.
    destruct (decide (r = sid)) as [->|_];
      [intros _; by apply socket_id_nonempty | apply (inv_names s HI)].
  - intros r m. cbn [rooms addAll]. destruct (decide (r = sid)) as [->|Hrr].
    + rewrite lookup_insert_eq. intros [= <-]. apply set_add_nonempty.
    + rewrite lookup_insert_ne by done. apply (inv_rooms_ok s HI).
  - intros x r. rewrite members_addAll, socketRooms_addAll.
    pose proof (inv_consistent s HI x r) as Hxr.
    destruct (decide (r = sid)) as [->|Hrc], (decide (x = sid)) as [->|Hxs];
      rewrite ?elem_of_set_add, ?Hr; try done.
    + split; [by left | by left].
    + rewrite Hxr. naive_solver.
    + rewrite Hxr, Hr. set_solver.
Qed.

(** [leaveAll] when the socket closes. *)
Lemma AdapterInv_delAll s sid : AdapterInv s → AdapterInv (delAll sid s).
Proof.
  intros HI.
  assert (∀ r, members (delAll sid s) r = set_delete sid (members s r)) as Hm.
  { intros r. rewrite members_delAll. case_decide as Hr; [done|].
    symmetry. apply set_delete_absent. by rewrite (inv_consistent s HI). }
  split.
  - intros x [Hxs Hx]%connected_delAll.
    rewrite socketRooms_delAll, decide_False by done. by apply (inv_shape s HI).
  - intros x [Hxs Hx]%connected_delAll. by apply (inv_sid s HI).
  - intros r x. rewrite Hm, elem_of_set_delete. intros [_ H].
    by apply (inv_names s HI) in H.
  - unfold delAll. destruct (sids s !! sid); [|apply (inv_rooms_ok s HI)].
    apply rooms_ok_foldl_del, (inv_rooms_ok s HI).
  - intros x r. rewrite Hm, socketRooms_delAll, elem_of_set_delete.
    rewrite (inv_consistent s HI x r).
    destruct (decide (x = sid)) as [->|]; [|naive_solver].
    split; [naive_solver | by intros ?%not_elem_of_nil].
Qed.

Lemma leaveCurrent_cases s sid :
  AdapterInv s → connected s sid →
  (getCurrentRoom s sid = None ∧ socketRooms s sid = [sid]
   ∧ leaveCurrent sid s = (s, []))
  ∨ (∃ c, getCurrentRoom s sid = Some c ∧ c ≠ sid ∧ socketRooms s sid = [sid; c]
          ∧ leaveCurrent sid s = (del sid c s, emitUserList (del sid c s) c)).
Proof.
  intros HI Hc. unfold leaveCurrent. rewrite truthy_getCurrentRoom by done.
  destruct (getCurrentRoom_cases s sid HI Hc) as [[Hr Hg]|(c & Hcs & Hce & Hr & Hg)];
    rewrite Hg; [by left | right; by exists c].
Qed.

(** After the shared block the socket is in its private room only. *)
Lemma leaveCurrent_inv s sid s1 out :
  AdapterInv s → connected s sid → leaveCurrent sid s = (s1, out) →
  AdapterInv s1 ∧ socketRooms s1 sid = [sid] ∧ (∀ x, connected s1 x ↔ connected s x)
  ∧ users s1 = users s ∧ pingIntervals s1 = pingIntervals s
  ∧ acks s1 = acks s ∧ ids s1 = ids s.
Proof.
  intros HI Hc.
  destruct (leaveCurrent_cases s sid HI Hc) as [(_ & Hr & ->)|(c & _ & Hcs & Hr & ->)];
    intros [= <- <-].
  - done.
  - destruct (AdapterInv_del s sid c HI Hc Hcs Hr) as [HI' Hr'].
    split_and!; try done. intros x. apply connected_del.
Qed.

Lemma Inv_adapter_change s s' :
  Inv s → AdapterInv s' → (∀ x, connected s' x ↔ connected s x) →
  users s' = users s → pingIntervals s' = pingIntervals s → Inv s'.
Proof.
  intros [HA HU HT] HA' Hc Hu Hp. split; [done|..]; intros x.
  - by rewrite Hu, Hc.
  - by rewrite Hp, Hc.
Qed.

Lemma Inv_registry_change s s' :
  Inv s → sids s' = sids s → rooms s' = rooms s →
  pingIntervals s' = pingIntervals s →
  (∀ x, is_Some (users s' !! x) ↔ is_Some (users s !! x)) → Inv s'.
Proof.
  intros [HA HU HT] Hs Hr Hp Hu. split.
  - by apply (AdapterInv_ext s).
  - intros x. rewrite Hu, HU. unfold connected. by rewrite Hs.
  - intros x. rewrite Hp, HT. unfold connected. by rewrite Hs.
Qed.

Lemma toUpperCase_length u : String.length (toUpperCase u) = String.length u.
Proof. induction u as [|c u IH]; simpl; [done | by rewrite IH]. Qed.

Lemma is_uid_length u : is_uid u = true → String.length u = 10%nat.
Proof.
  unfold is_uid. intros [H _]%andb_prop. by apply Nat.eqb_eq in H.
Qed.

Lemma uid_code_nonempty u : is_uid u = true → toUpperCase u ≠ "".
Proof.
  intros Hu He. apply is_uid_length in Hu.
  rewrite <- toUpperCase_length, He in Hu. done.
Qed.

Lemma uid_code_not_socket_id u sid :
  is_uid u = true → is_socket_id sid = true → toUpperCase u ≠ sid.
Proof.
  intros Hu Hs <-. apply is_uid_length in Hu. unfold is_socket_id in Hs.
  apply Nat.eqb_eq in Hs. rewrite toUpperCase_length in Hs. congruence.
Qed.

Lemma socket_join_connected s sid room :
  connected s sid → socket_join sid room s = addAll sid room s.
Proof. unfold socket_join. by intros [l ->]. Qed.

Lemma is_Some_insert_present {A} (m : gmap string A) k v x :
  is_Some (m !! k) → is_Some (<[k := v]> m !! x) ↔ is_Some (m !! x).
Proof.
  intros Hk. rewrite lookup_insert_is_Some.
  destruct (decide (k = x)) as [->|]; naive_solver.
Qed.

(** Leaving the current room, then joining [room]: the state reached by
    [create-room] and by a successful [join-room]. *)
Lemma rejoin_inv s sid room s1 out :
  Inv s → connected s sid → room ≠ "" → leaveCurrent sid s = (s1, out) →
  Inv (socket_join sid room s1)
  ∧ socketRooms (socket_join sid room s1) sid
    = (if decide (room = sid) then [sid] else [sid; room]).
Proof.
  intros HI Hc Hne Hl.
  destruct (leaveCurrent_inv s sid s1 out (inv_adapter s HI) Hc Hl)
    as (HA1 & Hr1 & Hc1 & Hu1 & Hp1 & _).
  assert (connected s1 sid) as Hcs by by apply Hc1.
  rewrite socket_join_connected by done.
  destruct (AdapterInv_addAll s1 sid room HA1 Hcs Hne Hr1) as [HA2 Hr2].
  split; [|done]. apply (Inv_adapter_change s); try done.
  intros x. rewrite connected_addAll, Hc1. naive_solver.
Qed.

Lemma room_exists_nonempty s room :
  AdapterInv s → is_Some (rooms s !! room) → room ≠ "".
Proof.
  intros HI [m Hm]. pose proof (inv_rooms_ok s HI room m Hm) as Hne.
  destruct m as [|x m]; [done|].
  apply (inv_names s HI room x). unfold members. rewrite Hm. left.
Qed.

Theorem step_Inv s e s' out :
  Inv s → enabled s e → step s e = Done (s', out) → Inv s'.
Proof.
  intros HI He Hs. destruct e; simpl in He, Hs.
  - (* connection *)
    destruct He as (Hnone & Hid & _). unfold on_connection in Hs.
    destruct (getRandomUsername _ _) as [username|]; [|done].
    injection Hs as <- <-.
    assert (¬ connected s sid) as Hnc by (unfold connected; rewrite Hnone; by intros [? ?]).
    destruct (AdapterInv_addAll_fresh s sid (inv_adapter s HI) Hnc Hid) as [HA _].
    split.
    + by apply (AdapterInv_ext (addAll sid sid s)).
    + intros x. cbn [users]. rewrite lookup_insert_is_Some.
      transitivity (x = sid ∨ connected s x).
      * rewrite <- (inv_users s HI x). cbn [users addAll].
        destruct (decide (sid = x)); naive_solver.
      * symmetry. apply connected_addAll.
    + intros x. cbn [pingIntervals]. rewrite elem_of_union, elem_of_singleton.
      transitivity (x = sid ∨ connected s x).
      * by rewrite <- (inv_timers s HI x).
      * symmetry. apply connected_addAll.
  - (* close *)
    unfold on_close, on_disconnecting in Hs.
    destruct (leaveCurrent sid s) as [s1 out1] eqn:Hl. injection Hs as <- <-.
    destruct (leaveCurrent_inv s sid s1 out1 (inv_adapter s HI) He Hl)
      as (HA1 & Hr1 & Hc1 & Hu1 & Hp1 & _).
    pose proof (AdapterInv_delAll s1 sid HA1) as HA2.
    assert (users (delAll sid s1) = users s ∧ pingIntervals (delAll sid s1) = pingIntervals s)
      as [Hu2 Hp2].
    { unfold delAll. destruct (sids s1 !! sid); simpl; by rewrite ?Hu1, ?Hp1. }
    split.
    + by apply (AdapterInv_ext (delAll sid s1)).
    + intros x. cbn [users on_disconnect]. rewrite Hu2, lookup_delete_is_Some.
      change (connected (on_disconnect sid (delAll sid s1)) x)
        with (connected (delAll sid s1) x).
      rewrite connected_delAll, Hc1, (inv_users s HI x). naive_solver.
    + intros x. cbn [pingIntervals on_disconnect]. rewrite Hp2.
      change (connected (on_disconnect sid (delAll sid s1)) x)
        with (connected (delAll sid s1) x).
      rewrite connected_delAll, Hc1, <- (inv_timers s HI x).
      destruct (decide (sid ∈ pingIntervals s)) as [Hin|Hnin]; [set_solver|].
      split; [|tauto]. intros Hx. split; [|done]. by intros ->.
  - (* change-username *)
    unfold on_change_username in Hs. destruct (users s !! sid) as [u|] eqn:Hu; [|done].
    injection Hs as <- <-. apply (Inv_registry_change s); try done.
    intros x. cbn [users set_users]. apply is_Some_insert_present. by rewrite Hu.
  - (* get-username *)
    unfold on_get_username in Hs. destruct (users s !! sid); [|done]. by injection Hs as <- <-.
  - (* create-room *)
    destruct He as [Hc Hu]. unfold on_create_room in Hs.
    destruct (leaveCurrent sid s) as [s1 out1] eqn:Hl. injection Hs as <- <-.
    by apply (rejoin_inv s sid (toUpperCase uid) s1 out1 HI Hc (uid_code_nonempty uid Hu) Hl).
  - (* join-room *)
    unfold on_join_room in Hs. destruct (rooms s !! room) as [m|] eqn:Hm.
    + destruct (leaveCurrent sid s) as [s1 out1] eqn:Hl. injection Hs as <- <-.
      assert (room ≠ "") as Hne
        by (apply (room_exists_nonempty s); [apply HI | by rewrite Hm]).
      by apply (rejoin_inv s sid room s1 out1 HI He Hne Hl).
    + by injection Hs as <- <-.
  - (* leave-room *)
    unfold on_leave_room in Hs. rewrite truthy_getCurrentRoom in Hs by apply HI.
    destruct (getCurrentRoom_cases s sid (inv_adapter s HI) He)
      as [[Hr Hg]|(c & Hcs & Hce & Hr & Hg)]; rewrite Hg in Hs; injection Hs as <- <-.
    + done.
    + destruct (AdapterInv_del s sid c (inv_adapter s HI) He Hcs Hr) as [HA' _].
      apply (Inv_adapter_change s); try done. intros x. apply connected_del.
  - (* get-current-room *)
    unfold on_get_current_room in Hs. by injection Hs as <- <-.
  - (* play *)
    unfold on_play, relay in Hs. destruct (truthy _); by injection Hs as <- <-.
  - (* pause *)
    unfold on_pause, relay in Hs. destruct (truthy _); by injection Hs as <- <-.
  - (* sync *)
    unfold on_sync, relay in Hs. destruct (truthy _); by injection Hs as <- <-.
  - (* currentlyWatching *)
    unfold on_currentlyWatching in Hs. destruct (truthy _).
    + destruct (users s !! sid) as [u|] eqn:Hu; [|done]. injection Hs as <- <-.
      apply (Inv_registry_change s); try done.
      intros x. cbn [users set_users]. apply is_Some_insert_present. by rewrite Hu.
    + by injection Hs as <- <-.
  - (* tick *)
    unfold on_tick in Hs. destruct (truthy _); injection Hs as <- <-; [|done].
    by apply (Inv_registry_change s).
  - (* ping reply *)
    unfold on_ping_reply in Hs. destruct (acks s !! ackId) as [a|]; [|by injection Hs as <- <-].
    destruct (users s !! ack_socket a) as [u|] eqn:Hu; [|done]. injection Hs as <- <-.
    apply (Inv_registry_change s); try done.
    intros x. cbn [users]. apply is_Some_insert_present. by rewrite Hu.
Qed.

Theorem reachable_Inv s : reachable s → Inv s.
Proof.
  induction 1 as [|s e s' out _ IH He Hs]; [apply Inv_initial | by apply (step_Inv s e s' out)].
Qed.


Lemma exec_reachable es : ∀ s s', reachable s → exec s es = Some s' → reachable s'.
Proof.
  induction es as [|e es IH]; intros s s' Hr; simpl.
  - by intros [= <-].
  - destruct (decide (enabled s e)) as [He|]; [|done].
    destruct (step s e) as [[s1 out]| |] eqn:Hs; try done.
    apply IH. by apply (reachable_step s e s1 out).
Qed.

Lemma state_after_reachable es : runs es = true → reachable (state_after es).
Proof.
  unfold runs, state_after. destruct (exec initial es) as [s|] eqn:He; [|done].
  intros _. apply (exec_reachable es initial); [constructor | done].
Qed.

Lemma connected_concrete s sid :
  bool_decide (connected s sid) = true → connected s sid.
Proof. apply bool_decide_eq_true. Qed.

(** ** Presence broadcasts *)



Lemma presence_rooms_app o1 o2 :
  presence_rooms (o1 ++ o2) = presence_rooms o1 ++ presence_rooms o2.
Proof. apply omap_app. Qed.

Lemma emitUserList_members s r :
  rooms_ok (rooms s) →
  emitUserList s r
  = if decide (members s r = []) then []
    else [ToRoom r (members s r) (UserList ((λ x, users s !! x) <$> members s r))].
Proof.
  intros Hok. unfold emitUserList, members.
  destruct (rooms s !! r) as [m|] eqn:Hm.
  - rewrite decide_False; [done|]. by apply (Hok r).
  - by rewrite decide_True.
Qed.

Lemma presence_rooms_emitUserList s r :
  rooms_ok (rooms s) →
  presence_rooms (emitUserList s r) = if decide (members s r = []) then [] else [r].
Proof. intros Hok. rewrite emitUserList_members by done. by case_decide. Qed.

Lemma leaveCurrent_presence s sid s1 out1 :
  AdapterInv s → connected s sid → leaveCurrent sid s = (s1, out1) →
  presence_rooms out1 = old_broadcast s sid.
Proof.
  intros HI Hc. unfold old_broadcast.
  destruct (leaveCurrent_cases s sid HI Hc) as [(Hg & _ & ->)|(c & Hg & Hcs & Hr & ->)];
    intros [= <- <-]; rewrite Hg; [done|].
  rewrite presence_rooms_emitUserList by apply rooms_ok_del, HI.
  rewrite members_del. by destruct (decide (c = c)).
Qed.



Lemma getCurrentRoom_pair s sid l : socketRooms s sid = l → getCurrentRoom s sid = l !! 1%nat.
Proof. unfold getCurrentRoom. by intros ->. Qed.

(** What [create-room] and a successful [join-room] do after the shared
    leave block. *)
Lemma rejoin_spec s sid room s1 out1 :
  Inv s → connected s sid → room ≠ "" → leaveCurrent sid s = (s1, out1) →
  let s' := socket_join sid room s1 in
  Inv s'
  ∧ socketRooms s' sid = (if decide (room = sid) then [sid] else [sid; room])
  ∧ (∀ r, sid ∈ members s' r ↔ r = sid ∨ r = room)
  ∧ members s' room = set_add sid (members s1 room)
  ∧ presence_rooms (out1 ++ emitUserList s' room) = old_broadcast s sid ++ [room].
Proof.
  intros HI Hc Hne Hl s'.
  destruct (rejoin_inv s sid room s1 out1 HI Hc Hne Hl) as [HI' Hr'].
  destruct (leaveCurrent_inv s sid s1 out1 (inv_adapter s HI) Hc Hl)
    as (HA1 & Hr1 & Hc1 & _).
  assert (connected s1 sid) as Hcs by by apply Hc1.
  assert (members s' room = set_add sid (members s1 room)) as Hm.
  { unfold s'. rewrite socket_join_connected by done.
    by rewrite members_addAll, decide_True. }
  split_and!; try done.
  - intros r. rewrite (inv_consistent s' (inv_adapter s' HI')). fold s' in Hr'. rewrite Hr'.
    case_decide; set_solver.
  - rewrite presence_rooms_app, (leaveCurrent_presence s sid s1 out1) by (done || apply HI).
    f_equal. rewrite presence_rooms_emitUserList by apply HI'.
    rewrite decide_False; [done|]. rewrite Hm. apply set_add_nonempty.
Qed.

Lemma room_lookup_members s room :
  AdapterInv s → rooms s !! room = None ↔ members s room = [].
Proof. intros HI. apply (rooms_ok_lookup (rooms s) room), HI. Qed.

Lemma create_room_unfold s sid uid s1 out1 :
  leaveCurrent sid s = (s1, out1) →
  step s (CreateRoom sid uid)
  = Done (socket_join sid (toUpperCase uid) s1,
          out1 ++ emitUserList (socket_join sid (toUpperCase uid) s1) (toUpperCase uid)
               ++ [Callback sid (RRoom None (Some (toUpperCase uid)))]).
Proof. intros Hl. simpl. unfold on_create_room. by rewrite Hl. Qed.

Lemma join_room_unfold s sid room s1 out1 :
  rooms s !! room ≠ None → leaveCurrent sid s = (s1, out1) →
  step s (JoinRoom sid room)
  = Done (socket_join sid room s1,
          out1 ++ emitUserList (socket_join sid room s1) room
               ++ [Callback sid (RRoom None (Some room))]).
Proof.
  intros Hm Hl. simpl. unfold on_join_room.
  destruct (rooms s !! room); [by rewrite Hl | done].
Qed.

Lemma presence_rooms_callback out sid r :
  presence_rooms (out ++ [Callback sid r]) = presence_rooms out.
Proof. rewrite presence_rooms_app. simpl. apply app_nil_r. Qed.

Lemma create_room_spec s sid uid :
  Inv s → connected s sid → is_uid uid = true →
  ∃ s' out,
    step s (CreateRoom sid uid) = Done (s', out)
    ∧ Inv s' ∧ connected s' sid
    ∧ getCurrentRoom s' sid = Some (toUpperCase uid)
    ∧ (∀ r, sid ∈ members s' r ↔ r = sid ∨ r = toUpperCase uid)
    ∧ presence_rooms out = old_broadcast s sid ++ [toUpperCase uid].
Proof.
  intros HI Hc Hu. pose proof (inv_adapter s HI) as HA.
  destruct (leaveCurrent sid s) as [s1 out1] eqn:Hl.
  pose proof (uid_code_nonempty uid Hu) as Hne.
  destruct (rejoin_spec s sid (toUpperCase uid) s1 out1 HI Hc Hne Hl)
    as (HI' & Hr' & Hm' & _ & Hp').
  eexists _, _. split; [by apply create_room_unfold|]. split_and!; try done.
  - apply (socketRooms_connected _ sid sid). rewrite Hr'. case_decide; left.
  - rewrite (getCurrentRoom_pair _ _ _ Hr').
    rewrite decide_False; [done|].
    apply uid_code_not_socket_id; [done | by apply (inv_sid s HA)].
  - by rewrite app_assoc, presence_rooms_callback.
Qed.

Lemma join_room_spec s sid room :
  Inv s → connected s sid → members s room ≠ [] →
  ∃ s' out,
    step s (JoinRoom sid room) = Done (s', out)
    ∧ Inv s' ∧ connected s' sid
    ∧ (room ≠ sid → getCurrentRoom s' sid = Some room)
    ∧ (∀ r, sid ∈ members s' r ↔ r = sid ∨ r = room)
    ∧ presence_rooms out = old_broadcast s sid ++ [room].
Proof.
  intros HI Hc Hm. pose proof (inv_adapter s HI) as HA.
  destruct (leaveCurrent sid s) as [s1 out1] eqn:Hl.
  assert (rooms s !! room ≠ None) as Hex by by rewrite room_lookup_members.
  assert (room ≠ "") as Hne.
  { apply (room_exists_nonempty s); [done|]. by destruct (rooms s !! room). }
  destruct (rejoin_spec s sid room s1 out1 HI Hc Hne Hl) as (HI' & Hr' & Hm' & _ & Hp').
  eexists _, _. split; [by apply join_room_unfold|]. split_and!; try done.
  - apply (socketRooms_connected _ sid sid). rewrite Hr'. case_decide; left.
  - intros Hrs. rewrite (getCurrentRoom_pair _ _ _ Hr'). by rewrite decide_False.
  - by rewrite app_assoc, presence_rooms_callback.
Qed.

(** ** Claims *)

(** C1, at the failing input.  The existence test of [join-room] accepts a
    connection id, so A joins the private room of B; B then creates a room,
    which C joins.  [getCurrentRoom] shows B one room, but B is a member of
    two rooms that each have another member, and a [sync] of A and a [sync]
    of C both reach B.  When B closes, [disconnecting] sends a [user-list] to
    the room B created only; the private room, where A stays, loses B without
    any [user-list]. *)
Theorem private_room_guest_breaks_exclusivity :
  reachable two_rooms
  ∧ getCurrentRoom two_rooms sidB = Some "ROOM000001"
  ∧ members two_rooms sidB = [sidB; sidA]
  ∧ members two_rooms "ROOM000001" = [sidB; sidC]
  ∧ step two_rooms (Sync sidA 7) = Done (two_rooms, [ToRoom sidB [sidB; sidA] (SyncSignal 7)])
  ∧ step two_rooms (Sync sidC 9)
    = Done (two_rooms, [ToRoom "ROOM000001" [sidB; sidC] (SyncSignal 9)])
  ∧ ∃ s', step two_rooms (Close sidB)
          = Done (s', [ToRoom "ROOM000001" [sidC]
                         (UserList [Some (mkUser sidC "Great Lion" 0 "" 0)])])
          ∧ members s' sidB = [sidA]
          ∧ getCurrentRoom s' sidA = Some sidB.
Proof.
  split; [|split; [|split; [|split; [|split; [|split]]]]].
  - apply (state_after_reachable two_rooms_events). vm_compute. reflexivity.
  - vm_compute. reflexivity.
  - vm_compute. reflexivity.
  - vm_compute. reflexivity.
  - vm_compute. reflexivity.
  - vm_compute. reflexivity.
  - eexists. split; [|split]; vm_compute; reflexivity.
Qed.

(** The same defect on two sockets: a membership change without a
    broadcast.  A has joined the private room of B, so that room has the
    members B and A.  B closes: B is in no room of its own choosing,
    [disconnecting] emits nothing, socket.io takes B out of its private room,
    and A, who stays in that room, is sent no [user-list]. *)
Lemma close_of_joined_private_room_is_silent :
  reachable guest
  ∧ connected guest sidB
  ∧ getCurrentRoom guest sidA = Some sidB
  ∧ members guest sidB = [sidB; sidA]
  ∧ ∃ s', step guest (Close sidB) = Done (s', []) ∧ members s' sidB = [sidA].
Proof.
  split; [|split; [|split; [|split]]].
  - apply (state_after_reachable guest_events). vm_compute. reflexivity.
  - apply connected_concrete. vm_compute. reflexivity.
  - vm_compute. reflexivity.
  - vm_compute. reflexivity.
  - eexists. split; vm_compute; reflexivity.
Qed.


Lemma leaveCurrent_current s sid :
  AdapterInv s →
  leaveCurrent sid s
  = match getCurrentRoom s sid with
    | Some c => (socket_leave sid c s, emitUserList (socket_leave sid c s) c)
    | None => (s, [])
    end.
Proof. intros HI. unfold leaveCurrent. by rewrite truthy_getCurrentRoom. Qed.

Lemma rejoin_frame s sid room s1 out1 x :
  leaveCurrent sid s = (s1, out1) → x ≠ sid →
  socketRooms (socket_join sid room s1) x = socketRooms s x.
Proof.
  intros Hl Hx.
  assert (socketRooms s1 x = socketRooms s x) as <-.
  { unfold leaveCurrent in Hl. destruct (truthy _) as [c|]; injection Hl as <- <-; [|done].
    unfold socket_leave. by rewrite socketRooms_del, decide_False. }
  unfold socket_join. destruct (sids s1 !! sid); [|done].
  by rewrite socketRooms_addAll, decide_False.
Qed.

Lemma unoccupied_members s room :
  AdapterInv s → (∀ x, room ∉ socketRooms s x) ↔ members s room = [].
Proof.
  intros HI. split.
  - intros Hno. destruct (members s room) as [|x m] eqn:Hm; [done|].
    destruct (Hno x). apply (inv_consistent s HI). rewrite Hm. left.
  - intros Hm x Hx. apply (inv_consistent s HI) in Hx. rewrite Hm in Hx.
    by apply not_elem_of_nil in Hx.
Qed.

(** C4. [join-room] answers [{error: "Room does not exist", roomID: null}]
    exactly when no connection is associated with the code, and then the
    state is unchanged.  Otherwise the caller leaves its current room, if
    any, with [emitUserList] for that room (which sends nothing when the room
    was emptied), joins the code, the members of the code receive one
    [user-list] made of their presence records, and the answer is
    [{error: null, roomID: code}]; the rooms of every other socket are
    untouched. *)
Theorem join_room_contract s sid room :
  reachable s → connected s sid →
  let failure := Done (s, [Callback sid (RRoom (Some "Room does not exist") None)]) in
  let left := match getCurrentRoom s sid with
              | Some c => socket_leave sid c s
              | None => s
              end in
  let s' := socket_join sid room left in
  let success :=
    Done (s', match getCurrentRoom s sid with
              | Some c => emitUserList left c
              | None => []
              end
              ++ [ToRoom room (members s' room)
                         (UserList ((λ x, users s' !! x) <$> members s' room))]
              ++ [Callback sid (RRoom None (Some room))]) in
  ((∀ x, room ∉ socketRooms s x) ↔ step s (JoinRoom sid room) = failure)
  ∧ (¬ (∀ x, room ∉ socketRooms s x) →
       step s (JoinRoom sid room) = success
       ∧ sid ∈ members s' room ∧ room ∈ socketRooms s' sid
       ∧ (∀ r, sid ∈ members s' r ↔ r = sid ∨ r = room)
       ∧ (∀ x, x ≠ sid → socketRooms s' x = socketRooms s x)).
Proof.
  intros Hreach Hc failure left s' success.
  pose proof (reachable_Inv s Hreach) as HI. pose proof (inv_adapter s HI) as HA.
  assert (leaveCurrent sid s
          = (left, match getCurrentRoom s sid with
                   | Some c => emitUserList left c
                   | None => []
                   end)) as Hl.
  { rewrite leaveCurrent_current by done. unfold left. by destruct (getCurrentRoom s sid). }
  assert (members s room ≠ [] → step s (JoinRoom sid room) = success
          ∧ sid ∈ members s' room ∧ room ∈ socketRooms s' sid
          ∧ (∀ r, sid ∈ members s' r ↔ r = sid ∨ r = room)
          ∧ (∀ x, x ≠ sid → socketRooms s' x = socketRooms s x)) as Hsucc.
  { intros Hm.
    assert (rooms s !! room ≠ None) as Hex by by rewrite room_lookup_members.
    assert (room ≠ "") as Hne.
    { apply (room_exists_nonempty s); [done|]. by destruct (rooms s !! room). }
    destruct (rejoin_spec s sid room _ _ HI Hc Hne Hl) as (HI' & Hr' & Hm' & Hs' & _).
    fold s' in HI', Hr', Hm', Hs'.
    assert (sid ∈ members s' room) as Hin by (apply Hm'; by right).
    split_and!; try done.
    - rewrite (join_room_unfold s sid room _ _ Hex Hl). fold s'. unfold success.
      do 2 f_equal. f_equal. rewrite emitUserList_members by apply HI'.
      rewrite decide_False; [done|]. intros He. rewrite He in Hin.
      by apply not_elem_of_nil in Hin.
    - by apply (inv_consistent s' (inv_adapter s' HI')).
    - intros x Hx. by apply (rejoin_frame s sid room _ _ x Hl). }
  rewrite (unoccupied_members s room HA). split.
  - split.
    + intros Hm. apply (room_lookup_members s room HA) in Hm.
      simpl. unfold on_join_room. by rewrite Hm.
    + intros Hf. destruct (decide (members s room = [])) as [|Hm]; [done|].
      destruct (Hsucc Hm) as [Hs _]. rewrite Hs in Hf. unfold success, failure in Hf.
      injection Hf as _ Hout. apply (f_equal (λ l, last l)) in Hout.
      rewrite last_app in Hout. simpl in Hout. done.
  - intros Hm. by apply Hsucc.
Qed.

Lemma leave_room_spec s sid :
  Inv s → connected s sid →
  ((getCurrentRoom s sid = None) ↔
   (step s (LeaveRoom sid) = Done (s, [Callback sid (RError (Some "No room to leave"))])))
  ∧ (∀ c, getCurrentRoom s sid = Some c →
       let s' := socket_leave sid c s in
       step s (LeaveRoom sid) = Done (s', emitUserList s' c ++ [Callback sid (RError None)])
       ∧ Inv s' ∧ connected s' sid
       ∧ getCurrentRoom s' sid = None ∧ (sid ∉ members s' c)
       ∧ (∀ x, x ≠ sid → socketRooms s' x = socketRooms s x)).
Proof.
  intros HI Hc. pose proof (inv_adapter s HI) as HA.
  assert (step s (LeaveRoom sid) = on_leave_room sid s) as -> by done.
  unfold on_leave_room. rewrite truthy_getCurrentRoom by done.
  destruct (getCurrentRoom_cases s sid HA Hc) as [[Hr Hg]|(c & Hcs & _ & Hr & Hg)];
    rewrite Hg.
  - split; [done|]. intros c Hn. discriminate Hn.
  - split.
    + split; [done|]. intros [= _ Hout]. apply (f_equal (λ l, last l)) in Hout.
      rewrite last_snoc in Hout. done.
    + intros c' [= <-]. set (s' := socket_leave sid c s).
      destruct (AdapterInv_del s sid c HA Hc Hcs Hr) as [HA' Hr'].
      assert (Inv s') as HI'.
      { apply (Inv_adapter_change s); try done. intros x. apply connected_del. }
      split_and!; try done.
      * by apply connected_del.
      * by rewrite (getCurrentRoom_pair s' sid [sid] Hr').
      * rewrite (inv_consistent s' HA'). unfold s', socket_leave. rewrite Hr'. set_solver.
      * intros x Hx. unfold s', socket_leave. by rewrite socketRooms_del, decide_False.
Qed.

(** C5, at the failing input: a successful [join-room] after which
    [leave-room] fails.  A joins the room named by its own connection id; the
    answer is [{error: null, roomID: id}], but the current room of A is still
    none and [leave-room] is refused. *)
Lemma leave_after_joining_own_id_fails :
  reachable alone
  ∧ connected alone sidA
  ∧ step alone (JoinRoom sidA sidA)
    = Done (alone, [ToRoom sidA [sidA]
                      (UserList [Some (mkUser sidA "Awesome Giraffe" 0 "" 0)]);
                    Callback sidA (RRoom None (Some sidA))])
  ∧ step alone (LeaveRoom sidA)
    = Done (alone, [Callback sidA (RError (Some "No room to leave"))]).
Proof.
  split; [|split; [|split]].
  - apply (state_after_reachable alone_events). vm_compute. reflexivity.
  - apply connected_concrete. vm_compute. reflexivity.
  - vm_compute. reflexivity.
  - vm_compute. reflexivity.
Qed.

(** X17. The answers of [leave-room].  [leave-room] answers
    [{error: "No room to leave"}] exactly when the caller is in no room, and
    then the state is unchanged; otherwise it leaves the room, calls
    [emitUserList] for it and answers [{error: null}].  After [create-room],
    or after a successful [join-room] whose code is not the caller's own
    connection id, [leave-room] succeeds once and the next one fails. *)
Theorem leave_room_contract s sid :
  reachable s → connected s sid →
  ((getCurrentRoom s sid = None) ↔
   (step s (LeaveRoom sid) = Done (s, [Callback sid (RError (Some "No room to leave"))])))
  ∧ (∀ c, getCurrentRoom s sid = Some c →
       let s' := socket_leave sid c s in
       step s (LeaveRoom sid) = Done (s', emitUserList s' c ++ [Callback sid (RError None)])
       ∧ getCurrentRoom s' sid = None ∧ (sid ∉ members s' c)
       ∧ (∀ x, x ≠ sid → socketRooms s' x = socketRooms s x))
  ∧ (∀ e s1 out1,
       (∃ uid, e = CreateRoom sid uid ∧ is_uid uid = true)
       ∨ (∃ room, e = JoinRoom sid room ∧ room ≠ sid ∧ members s room ≠ []) →
       step s e = Done (s1, out1) →
       ∃ s2 out2,
         step s1 (LeaveRoom sid) = Done (s2, out2 ++ [Callback sid (RError None)])
         ∧ step s2 (LeaveRoom sid)
           = Done (s2, [Callback sid (RError (Some "No room to leave"))])).
Proof.
  intros Hreach Hc. pose proof (reachable_Inv s Hreach) as HI.
  destruct (leave_room_spec s sid HI Hc) as [Hfail Hok].
  split; [done|]. split.
  - intros c Hg. destruct (Hok c Hg) as (H1 & _ & _ & H2 & H3 & H4). done.
  - intros e s1 out1 He Hs.
    assert (∃ code, getCurrentRoom s1 sid = Some code ∧ connected s1 sid ∧ Inv s1)
      as (code & Hg & Hc1 & HI1).
    { destruct He as [(uid & -> & Hu)|(room & -> & Hne & Hm)].
      - destruct (create_room_spec s sid uid HI Hc Hu) as (s' & out & Hs' & HI' & Hc' & Hg & _).
        rewrite Hs in Hs'. injection Hs' as <- <-. by exists (toUpperCase uid).
      - destruct (join_room_spec s sid room HI Hc Hm) as (s' & out & Hs' & HI' & Hc' & Hg & _).
        rewrite Hs in Hs'. injection Hs' as <- <-. exists room. split_and!; auto. }
    destruct (leave_room_spec s1 sid HI1 Hc1) as [_ Hok1].
    destruct (Hok1 code Hg) as (Hs1 & HI2 & Hc2 & Hg2 & _).
    eexists _, _. split; [exact Hs1|].
    by apply (leave_room_spec _ sid HI2 Hc2).
Qed.

(** C6. Playback relay.  For a sender in room [c], [play], [pause] and
    [sync t] change nothing and emit one bare [play] / [pause] signal, or one
    [sync] carrying exactly [t], to the members of [c]; the sender is one of
    the recipients, and so is every socket whose current room is [c].  For a
    sender in no room the three events change nothing and emit nothing. *)
Theorem playback_relay s sid time :
  reachable s → connected s sid →
  (∀ c, getCurrentRoom s sid = Some c →
     step s (Play sid) = Done (s, [ToRoom c (members s c) PlaySignal])
     ∧ step s (Pause sid) = Done (s, [ToRoom c (members s c) PauseSignal])
     ∧ step s (Sync sid time) = Done (s, [ToRoom c (members s c) (SyncSignal time)])
     ∧ sid ∈ members s c
     ∧ (∀ x, getCurrentRoom s x = Some c → x ∈ members s c))
  ∧ (getCurrentRoom s sid = None →
     step s (Play sid) = Done (s, [])
     ∧ step s (Pause sid) = Done (s, [])
     ∧ step s (Sync sid time) = Done (s, [])).
Proof.
  intros Hreach Hc. pose proof (inv_adapter s (reachable_Inv s Hreach)) as HA.
  assert (∀ p, step s (Play sid) = relay sid PlaySignal s
               ∧ step s (Pause sid) = relay sid PauseSignal s
               ∧ step s (Sync sid time) = relay sid (SyncSignal time) s
               ∧ relay sid p s
                 = match getCurrentRoom s sid with
                   | Some c => Done (s, [ToRoom c (members s c) p])
                   | None => Done (s, [])
                   end) as Hrelay.
  { intros p. split_and!; try done. unfold relay. by rewrite truthy_getCurrentRoom. }
  split.
  - intros c Hg.
    destruct (Hrelay PlaySignal) as (-> & -> & -> & _).
    rewrite !(λ p, proj2 (proj2 (proj2 (Hrelay p)))), Hg. split_and!; try done.
    + apply (inv_consistent s HA). unfold getCurrentRoom in Hg.
      by apply list_elem_of_lookup_2 in Hg.
    + intros x Hx. apply (inv_consistent s HA). unfold getCurrentRoom in Hx.
      by apply list_elem_of_lookup_2 in Hx.
  - intros Hg. destruct (Hrelay PlaySignal) as (-> & -> & -> & _).
    by rewrite !(λ p, proj2 (proj2 (proj2 (Hrelay p)))), Hg.
Qed.

(** C7. Watching-state frame property.  For a sender in a room,
    [currentlyWatching m t] rewrites the two fields [currentlyWatching] and
    [currentTime] of the sender's own presence record and nothing else: the
    record keeps its other fields, every other record, the timers, the
    adapter and the pending callbacks are the same, and nothing is emitted.
    For a sender in no room the event changes nothing and emits nothing. *)
Theorem watching_frame s sid movieId time :
  reachable s → connected s sid →
  (∀ c, getCurrentRoom s sid = Some c →
     ∃ u, users s !! sid = Some u
          ∧ step s (CurrentlyWatching sid movieId time)
            = Done (mkState (<[sid := mkUser (id u) (name u) (ping u) movieId time]> (users s))
                            (pingIntervals s) (sids s) (rooms s) (acks s) (ids s), []))
  ∧ (getCurrentRoom s sid = None →
     step s (CurrentlyWatching sid movieId time) = Done (s, [])).
Proof.
  intros Hreach Hc. pose proof (reachable_Inv s Hreach) as HI.
  assert (step s (CurrentlyWatching sid movieId time)
          = on_currentlyWatching sid movieId time s) as -> by done.
  unfold on_currentlyWatching. rewrite truthy_getCurrentRoom by apply HI. split.
  - intros c ->. destruct (proj2 (inv_users s HI sid) Hc) as [u Hu].
    exists u. split; [done|]. by rewrite Hu.
  - by intros ->.
Qed.

(** C10. Private transport rooms are joinable.  For two distinct connected
    sockets [a] and [b], [join-room] sent by [a] with the connection id of
    [b] as the code answers [{error: null, roomID: b}] and makes [b]'s id the
    current room of [a], although no [create-room] can have returned that
    code. *)
Theorem private_room_joinable s a b :
  reachable s → connected s a → connected s b → a ≠ b →
  (∃ s' out,
     step s (JoinRoom a b) = Done (s', out ++ [Callback a (RRoom None (Some b))])
     ∧ getCurrentRoom s' a = Some b
     ∧ a ∈ members s' b ∧ b ∈ members s' b)
  ∧ (∀ uid, is_uid uid = true → toUpperCase uid ≠ b).
Proof.
  intros Hreach Ha Hb Hab. pose proof (reachable_Inv s Hreach) as HI.
  pose proof (inv_adapter s HI) as HA.
  pose proof (private_room s b HA Hb) as Hbb.
  assert (rooms s !! b ≠ None) as Hex.
  { rewrite room_lookup_members by done. intros He. rewrite He in Hbb.
    by apply not_elem_of_nil in Hbb. }
  destruct (leaveCurrent a s) as [s1 out1] eqn:Hl.
  assert (b ≠ "") as Hne by (apply socket_id_nonempty; by apply (inv_sid s HA)).
  destruct (rejoin_spec s a b s1 out1 HI Ha Hne Hl) as (HI' & Hr' & Hm' & _ & _).
  split.
  - eexists _, _. split; [|split_and!].
    + rewrite (join_room_unfold s a b s1 out1 Hex Hl). by rewrite app_assoc.
    + rewrite (getCurrentRoom_pair _ _ _ Hr'). by rewrite decide_False.
    + apply Hm'. by right.
    + apply (inv_consistent _ (inv_adapter _ HI')).
      rewrite (rejoin_frame s a b s1 out1 b Hl) by done.
      by apply (inv_consistent s HA).
  - intros uid Hu. apply uid_code_not_socket_id; [done | by apply (inv_sid s HA)].
Qed.


(** C2, against the claim: the broadcast after a reply goes to the room
    captured when the probe was sent.  Socket B is probed in ROOM000001 and
    moves to ROOM000002 before it replies; the reply emits one [user-list],
    to ROOM000001, whose only member is then A. *)
Lemma probe_reply_uses_request_room :
  reachable moved
  ∧ getCurrentRoom moved sidB = Some "ROOM000002"
  ∧ acks moved !! 0%nat = Some (mkPingAck sidB 1000 "ROOM000001")
  ∧ ∃ s', step moved (PingReply 0 1030)
          = Done (s', [ToRoom "ROOM000001" [sidA]
                         (UserList [Some (mkUser sidA "Awesome Giraffe" 0 "" 0)])])
          ∧ users s' !! sidB = Some (mkUser sidB "Cool Lion" 30 "" 0).
Proof.
  split_and!.
  - apply (state_after_reachable moved_events). by vm_compute.
  - by vm_compute.
  - by vm_compute.
  - eexists. split; by vm_compute.
Qed.

(** C2, as the code has it.  A tick of a socket that is in no room changes
    nothing and sends nothing.  A tick of a socket in room [c] at time [now]
    sends one probe to the socket and registers the reply callback, which
    holds [now] and [c].  When the reply to such a callback arrives at time
    [end_] and the presence record exists, its [ping] becomes [end_ - now],
    the callback is forgotten, and [emitUserList] is called for the captured
    room [c], whatever the current room of the socket is by then. *)
Theorem latency_probe s sid now :
  reachable s → sid ∈ pingIntervals s →
  (getCurrentRoom s sid = None → step s (Tick sid now) = Done (s, []))
  ∧ (∀ c, getCurrentRoom s sid = Some c →
       step s (Tick sid now)
       = Done (mkState (users s) (pingIntervals s) (sids s) (rooms s)
                       (<[ids s := mkPingAck sid now c]> (acks s)) (S (ids s)),
               [PingRequest sid (ids s)]))
  ∧ (∀ t k c u end_,
       acks t !! k = Some (mkPingAck sid now c) → users t !! sid = Some u →
       let t' := mkState (<[sid := mkUser (id u) (name u) (end_ - now)
                                          (currentlyWatching u) (currentTime u)]> (users t))
                         (pingIntervals t) (sids t) (rooms t)
                         (delete k (acks t)) (ids t) in
       step t (PingReply k end_) = Done (t', emitUserList t' c)).
Proof.
  intros Hreach Ht. pose proof (reachable_Inv s Hreach) as HI.
  assert (step s (Tick sid now) = on_tick sid now s) as -> by done.
  unfold on_tick. rewrite truthy_getCurrentRoom by apply HI. split_and!.
  - by intros ->.
  - by intros c ->.
  - intros t k c u end_ Hk Hu. simpl. unfold on_ping_reply. rewrite Hk. simpl.
    by rewrite Hu.
Qed.

(** After a socket has closed: its record and its timer are gone, a tick
    that still fires finds no room and does nothing, and every reply to a
    probe of that socket throws, because the callback writes to the record
    without looking whether it is there. *)
Lemma closed_socket s sid s' out :
  reachable s → connected s sid → step s (Close sid) = Done (s', out) →
  users s' !! sid = None
  ∧ (sid ∉ pingIntervals s')
  ∧ (∀ now, step s' (Tick sid now) = Done (s', []))
  ∧ (∀ k a end_, acks s' !! k = Some a → ack_socket a = sid →
       step s' (PingReply k end_) = Throws "TypeError").
Proof.
  intros Hreach Hc Hs. pose proof (reachable_Inv s Hreach) as HI.
  pose proof (step_Inv s (Close sid) s' out HI Hc Hs) as HI'.
  assert (¬ connected s' sid) as Hnc.
  { simpl in Hs. unfold on_close in Hs.
    destruct (on_disconnecting sid s) as [s1 out1]. injection Hs as <- <-.
    change (connected (on_disconnect sid (delAll sid s1)) sid)
      with (connected (delAll sid s1) sid).
    rewrite connected_delAll. by intros [? _]. }
  assert (users s' !! sid = None) as Hu.
  { destruct (users s' !! sid) as [u|] eqn:Hu; [|done].
    destruct Hnc. apply (inv_users s' HI'). by rewrite Hu. }
  split; [done|]. split; [by rewrite (inv_timers s' HI')|]. split.
  - intros now. simpl. unfold on_tick, getCurrentRoom.
    by rewrite socketRooms_not_connected.
  - intros k a end_ Hk <-. simpl. unfold on_ping_reply. by rewrite Hk, Hu.
Qed.

(** C3, at the failing input.  Socket A is probed in its room and closes
    before replying.  Closing removes the presence record and the timer but
    not the pending reply callback.  A late tick finds no room and does
    nothing; the late reply runs [users[socket.id].ping = ...] on a missing
    record and throws. *)
Theorem reply_after_disconnect_throws :
  reachable closed
  ∧ users closed !! sidA = None
  ∧ (sidA ∉ pingIntervals closed)
  ∧ acks closed !! 0%nat = Some (mkPingAck sidA 1000 "ROOM000001")
  ∧ step closed (Tick sidA 1500) = Done (closed, [])
  ∧ step closed (PingReply 0 1030) = Throws "TypeError".
Proof.
  split_and!.
  - apply (state_after_reachable closed_events). by vm_compute.
  - by vm_compute.
  - by vm_compute.
  - by vm_compute.
  - by vm_compute.
  - by vm_compute.
Qed.

Lemma upper_ascii_not_lower c : is_lower (upper_ascii c) = false.
Proof. by destruct c as [[] [] [] [] [] [] [] []]. Qed.

Lemma toUpperCase_no_lower u :
  string_forallb (λ c, negb (is_lower c)) (toUpperCase u) = true.
Proof.
  induction u as [|c u IH]; simpl; [done|].
  by rewrite upper_ascii_not_lower, IH.
Qed.

Lemma set_add_fresh x l : x ∉ l → set_add x l = l ++ [x].
Proof. intros H. unfold set_add. by rewrite decide_False. Qed.

Lemma leaveCurrent_members s sid s1 out1 r :
  AdapterInv s → connected s sid → r ≠ sid → leaveCurrent sid s = (s1, out1) →
  members s1 r = set_delete sid (members s r).
Proof.
  intros HI Hc Hrs.
  destruct (leaveCurrent_cases s sid HI Hc) as [(Hg & Hr & ->)|(c & Hg & Hcs & Hr & ->)];
    intros [= <- <-].
  - symmetry. apply set_delete_absent. rewrite (inv_consistent s HI), Hr. set_solver.
  - rewrite members_del. destruct (decide (r = c)) as [->|Hrc]; [done|].
    symmetry. apply set_delete_absent. rewrite (inv_consistent s HI), Hr. set_solver.
Qed.

(** C8, against the claim: the code is not tested against the active rooms.
    A holds the room made from the uid [aaaaaaaaaa]; the generator then hands
    B the different uid [AAAAAAAAAA]; [create-room] returns to B the code
    AAAAAAAAAA, which A's room already carries, and B lands in A's room. *)
Lemma create_room_code_collides :
  reachable one_room
  ∧ is_uid "AAAAAAAAAA" = true
  ∧ members one_room "AAAAAAAAAA" = [sidA]
  ∧ ∃ s' out,
      step one_room (CreateRoom sidB "AAAAAAAAAA")
      = Done (s', out ++ [Callback sidB (RRoom None (Some "AAAAAAAAAA"))])
      ∧ members s' "AAAAAAAAAA" = [sidA; sidB].
Proof.
  split_and!.
  - apply (state_after_reachable one_room_events). by vm_compute.
  - done.
  - by vm_compute.
  - eexists _, [_]. split; by vm_compute.
Qed.

(** C8, as the code has it.  The code returned by [create-room] is the
    generator's output in upper case: ten characters, none of them a
    lowercase letter.  The new room consists of the connections other than
    the caller that already held the code, followed by the caller; so the
    code is fresh exactly when no other connection holds the upper-cased
    output, which the handler does not test. *)
Theorem create_room_code s sid uid :
  reachable s → connected s sid → is_uid uid = true →
  let code := toUpperCase uid in
  String.length code = 10%nat
  ∧ string_forallb (λ c, negb (is_lower c)) code = true
  ∧ ∃ s' out,
      step s (CreateRoom sid uid) = Done (s', out ++ [Callback sid (RRoom None (Some code))])
      ∧ members s' code = set_delete sid (members s code) ++ [sid]
      ∧ ((∀ x, x ≠ sid → code ∉ socketRooms s x) ↔ members s' code = [sid]).
Proof.
  intros Hreach Hc Hu code. pose proof (reachable_Inv s Hreach) as HI.
  pose proof (inv_adapter s HI) as HA.
  subst code. split; [by rewrite toUpperCase_length, (is_uid_length uid Hu)|].
  split; [apply toUpperCase_no_lower|].
  destruct (leaveCurrent sid s) as [s1 out1] eqn:Hl.
  assert (toUpperCase uid ≠ sid) as Hcs
    by (apply uid_code_not_socket_id; [done | by apply (inv_sid s HA)]).
  destruct (rejoin_spec s sid (toUpperCase uid) s1 out1 HI Hc (uid_code_nonempty uid Hu) Hl)
    as (_ & _ & _ & Hm & _).
  rewrite (leaveCurrent_members s sid s1 out1 (toUpperCase uid) HA Hc Hcs Hl) in Hm.
  rewrite set_add_fresh in Hm by (rewrite elem_of_set_delete; by intros [? _]).
  eexists _, _. split; [|split].
  - rewrite (create_room_unfold s sid uid s1 out1 Hl). by rewrite app_assoc.
  - done.
  - rewrite Hm. split.
    + intros Hno.
      destruct (set_delete sid (members s (toUpperCase uid))) as [|x m] eqn:Hd; [done|].
      assert (x ∈ set_delete sid (members s (toUpperCase uid))) as Hx by (rewrite Hd; left).
      apply elem_of_set_delete in Hx as [Hxs Hx].
      apply (inv_consistent s HA) in Hx. by destruct (Hno x Hxs).
    + intros He x Hxs Hx. apply (inv_consistent s HA) in Hx.
      assert (x ∈ set_delete sid (members s (toUpperCase uid))) as Hd
        by by apply elem_of_set_delete.
      destruct (set_delete sid (members s (toUpperCase uid))) as [|y l];
        [by apply not_elem_of_nil in Hd|].
      by destruct l.
Qed.

(** ** Names *)

Lemma elem_of_usernames s n :
  n ∈ usernames s ↔ ∃ x u, users s !! x = Some u ∧ name u = n.
Proof.
  unfold usernames. rewrite list_elem_of_fmap. split.
  - intros ([x u] & -> & H). apply elem_of_map_to_list in H. by exists x, u.
  - intros (x & u & H & <-). exists (x, u). split; [done|]. by apply elem_of_map_to_list.
Qed.

Lemma getRandomUsername_Some s draws n :
  getRandomUsername s draws = Some n →
  (n ∉ usernames s) ∧ ∃ d, d ∈ draws ∧ n = username_of_draw d.
Proof.
  induction draws as [|d draws IH]; simpl; [done|].
  destruct (decide (username_of_draw d ∈ usernames s)) as [Hin|Hnin].
  - intros H. destruct (IH H) as (Hn & d' & Hd' & ->).
    split; [done|]. exists d'. split; [by right | done].
  - intros [= <-]. split; [done|]. exists d. split; [left | done].
Qed.

(** The loop returns as soon as a draw gives a free name. *)
Lemma getRandomUsername_terminates s draws d :
  d ∈ draws → (username_of_draw d ∉ usernames s) →
  ∃ n, getRandomUsername s draws = Some n.
Proof.
  induction draws as [|d' draws IH]; [by intros ?%not_elem_of_nil|].
  intros Hd Hfree. simpl.
  destruct (decide (username_of_draw d' ∈ usernames s)) as [Hin|Hnin]; [|eauto].
  apply elem_of_cons in Hd as [->|Hd]; [done | by apply IH].
Qed.

Lemma is_draw_all_draws d : is_draw d = true → d ∈ all_draws.
Proof.
  destruct d as [d1 d2]. unfold is_draw, all_draws. simpl fst; simpl snd.
  intros [H1 H2]%andb_prop. apply Nat.ltb_lt in H1, H2.
  apply list_elem_of_bind. exists d1. split; [|apply elem_of_seq; lia].
  apply list_elem_of_bind. exists d2. split; [left | apply elem_of_seq; lia].
Qed.

(** With every default name taken, no supply of draws ends the loop. *)
Lemma getRandomUsername_exhausted s draws :
  names_exhausted s = true → forallb is_draw draws = true →
  getRandomUsername s draws = None.
Proof.
  intros Hex. induction draws as [|d draws IH]; simpl; [done|].
  intros [Hd Hrest]%andb_prop.
  rewrite decide_True; [by apply IH|].
  unfold names_exhausted in Hex. rewrite forallb_forall in Hex.
  apply is_draw_all_draws, list_elem_of_In, Hex in Hd.
  by apply bool_decide_eq_true in Hd.
Qed.

Lemma getRandomUsername_users s s' draws :
  users s = users s' → getRandomUsername s draws = getRandomUsername s' draws.
Proof.
  intros Hu. induction draws as [|d draws IH]; simpl; [done|].
  unfold usernames. by rewrite Hu, IH.
Qed.

Lemma connection_spins s sid draws :
  names_exhausted s = true → forallb is_draw draws = true →
  step s (Connection sid draws) = Spins.
Proof.
  intros Hex Hd. simpl. unfold on_connection.
  rewrite (getRandomUsername_users (addAll sid sid s) s) by done.
  by rewrite getRandomUsername_exhausted.
Qed.

Lemma exhausts_spec es sid :
  exhausts es sid = true →
  reachable (state_after es)
  ∧ names_exhausted (state_after es) = true
  ∧ sids (state_after es) !! sid = None.
Proof.
  unfold exhausts, state_after. destruct (exec initial es) as [s|] eqn:He; [|done].
  intros [Hex Hfresh]%andb_prop. split_and!.
  - apply (exec_reachable es initial); [constructor | done].
  - done.
  - by apply bool_decide_eq_true in Hfresh.
Qed.

(** C9, at the failing input: the loop of [getRandomUsername] does not end.
    After 294 connections that drew the 294 different default names, a new
    connection finds every name taken, whatever it draws. *)
Lemma register_spins_when_names_taken :
  reachable (state_after full_house_events)
  ∧ sids (state_after full_house_events) !! sidA = None
  ∧ is_socket_id sidA = true
  ∧ ∀ draws, forallb is_draw draws = true →
             step (state_after full_house_events) (Connection sidA draws) = Spins.
Proof.
  assert (exhausts full_house_events sidA = true) as Hcheck by (vm_compute; reflexivity).
  destruct (exhausts_spec full_house_events sidA Hcheck) as (Hreach & Hex & Hfresh).
  split; [exact Hreach|]. split; [exact Hfresh|]. split; [reflexivity|].
  intros draws Hd. exact (connection_spins _ sidA draws Hex Hd).
Qed.

(** X18. Names at connection and at rename.  On a connect whose draws
    contain one that gives a name held by no presence record, the loop ends and the new record
    has a name different from the name of every other record, [ping] 0 and an
    empty watching state.  [change-username] stores the requested name as it
    is and answers [{error: null}], without looking at the other records,
    which it leaves as they are. *)
Theorem register_and_rename s :
  reachable s →
  (∀ sid draws d,
     d ∈ draws → (username_of_draw d ∉ usernames s) →
     ∃ username s',
       step s (Connection sid draws) = Done (s', [])
       ∧ users s' = <[sid := mkUser sid username 0 "" 0]> (users s)
       ∧ (∀ x u, users s !! x = Some u → name u ≠ username))
  ∧ (∀ sid newName,
       connected s sid →
       ∃ u s' out,
         users s !! sid = Some u
         ∧ step s (ChangeUsername sid newName) = Done (s', out ++ [Callback sid (RError None)])
         ∧ users s'
           = <[sid := mkUser (id u) newName (ping u) (currentlyWatching u) (currentTime u)]>
               (users s)).
Proof.
  intros Hreach. pose proof (reachable_Inv s Hreach) as HI. split.
  - intros sid draws d Hd Hfree.
    assert (usernames (addAll sid sid s) = usernames s) as Hsame by done.
    destruct (getRandomUsername_terminates (addAll sid sid s) draws d Hd) as [n Hn];
      [by rewrite Hsame|].
    exists n. eexists. simpl. unfold on_connection. rewrite Hn. split_and!; try done.
    intros x u Hu Hname. apply getRandomUsername_Some in Hn as [Hn _].
    apply Hn. rewrite Hsame. apply elem_of_usernames. by exists x, u.
  - intros sid newName Hc. destruct (proj2 (inv_users s HI sid) Hc) as [u Hu].
    exists u. eexists _, _. split; [done|]. simpl. unfold on_change_username.
    rewrite Hu. done.
Qed.

(** ** The claims on concrete runs *)

Lemma reachable_pair : reachable pair.
Proof. apply (state_after_reachable pair_events). vm_compute. reflexivity. Qed.

Lemma reachable_one_room : reachable one_room.
Proof. apply (state_after_reachable one_room_events). vm_compute. reflexivity. Qed.



(** C4 on the same run: a code nobody holds is refused and nothing changes. *)
Lemma join_room_contract_witness :
  reachable pair ∧ connected pair sidB
  ∧ step pair (JoinRoom sidB "NOTAREALCODE")
    = Done (pair, [Callback sidB (RRoom (Some "Room does not exist") None)]).
Proof.
  assert (reachable pair) as Hr by exact reachable_pair.
  assert (connected pair sidB) as Hc by (apply connected_concrete; vm_compute; reflexivity).
  split; [exact Hr|]. split; [exact Hc|].
  apply (proj1 (join_room_contract pair sidB "NOTAREALCODE" Hr Hc)).
  apply unoccupied_members; [apply reachable_Inv, Hr | vm_compute; reflexivity].
Defined.

(** X17 on the same run: B leaves ROOM000001 once. *)
Lemma leave_room_contract_witness :
  reachable pair ∧ connected pair sidB
  ∧ getCurrentRoom (socket_leave sidB "ROOM000001" pair) sidB = None.
Proof.
  assert (reachable pair) as Hr by exact reachable_pair.
  assert (connected pair sidB) as Hc by (apply connected_concrete; vm_compute; reflexivity).
  split; [exact Hr|]. split; [exact Hc|].
  assert (getCurrentRoom pair sidB = Some "ROOM000001") as Hg by (vm_compute; reflexivity).
  destruct (leave_room_contract pair sidB Hr Hc) as (_ & H2 & _).
  exact (proj1 (proj2 (H2 "ROOM000001" Hg))).
Defined.

(** C6 on the same run: A sends [sync 42]; A and B receive it. *)
Lemma playback_relay_witness :
  reachable pair ∧ connected pair sidA
  ∧ step pair (Sync sidA 42)
    = Done (pair, [ToRoom "ROOM000001" (members pair "ROOM000001") (SyncSignal 42)])
  ∧ members pair "ROOM000001" = [sidA; sidB].
Proof.
  assert (reachable pair) as Hr by exact reachable_pair.
  assert (connected pair sidA) as Hc by (apply connected_concrete; vm_compute; reflexivity).
  split; [exact Hr|]. split; [exact Hc|].
  assert (getCurrentRoom pair sidA = Some "ROOM000001") as Hg by (vm_compute; reflexivity).
  destruct (playback_relay pair sidA 42 Hr Hc) as (H1 & _).
  destruct (H1 "ROOM000001" Hg) as (_ & _ & Hsync & _).
  split; [exact Hsync | vm_compute; reflexivity].
Defined.

(** C7 on the same run: B reports what it watches. *)
Lemma watching_frame_witness :
  reachable pair ∧ connected pair sidB
  ∧ ∃ u, users pair !! sidB = Some u
         ∧ step pair (CurrentlyWatching sidB "80100172" 1234)
           = Done (mkState (<[sidB := mkUser (id u) (name u) (ping u) "80100172" 1234]>
                              (users pair))
                           (pingIntervals pair) (sids pair) (rooms pair)
                           (acks pair) (ids pair), []).
Proof.
  assert (reachable pair) as Hr by exact reachable_pair.
  assert (connected pair sidB) as Hc by (apply connected_concrete; vm_compute; reflexivity).
  split; [exact Hr|]. split; [exact Hc|].
  assert (getCurrentRoom pair sidB = Some "ROOM000001") as Hg by (vm_compute; reflexivity).
  exact (proj1 (watching_frame pair sidB "80100172" 1234 Hr Hc) "ROOM000001" Hg).
Defined.

(** C10: B joins the private room of A. *)
Lemma private_room_joinable_witness :
  reachable one_room ∧ connected one_room sidB ∧ connected one_room sidA ∧ sidB ≠ sidA
  ∧ ∃ s' out,
      step one_room (JoinRoom sidB sidA) = Done (s', out ++ [Callback sidB (RRoom None (Some sidA))])
      ∧ getCurrentRoom s' sidB = Some sidA.
Proof.
  assert (reachable one_room) as Hr by exact reachable_one_room.
  assert (connected one_room sidB) as Hb by (apply connected_concrete; vm_compute; reflexivity).
  assert (connected one_room sidA) as Ha by (apply connected_concrete; vm_compute; reflexivity).
  assert (sidB ≠ sidA) as Hne by (intros H; discriminate H).
  split; [exact Hr|]. split; [exact Hb|]. split; [exact Ha|]. split; [exact Hne|].
  destruct (private_room_joinable one_room sidB sidA Hr Hb Ha Hne)
    as ((s' & out & Hs & Hg & _) & _).
  exists s', out. split; [exact Hs | exact Hg].
Defined.

(** C2 on the pair: a tick of B sends probe 0. *)
Lemma latency_probe_witness :
  reachable pair ∧ sidB ∈ pingIntervals pair
  ∧ step pair (Tick sidB 1000)
    = Done (mkState (users pair) (pingIntervals pair) (sids pair) (rooms pair)
                    (<[ids pair := mkPingAck sidB 1000 "ROOM000001"]> (acks pair))
                    (S (ids pair)),
            [PingRequest sidB (ids pair)]).
Proof.
  assert (reachable pair) as Hr by exact reachable_pair.
  assert (sidB ∈ pingIntervals pair) as Ht
    by (apply (proj1 (bool_decide_eq_true _)); vm_compute; reflexivity).
  split; [exact Hr|]. split; [exact Ht|].
  assert (getCurrentRoom pair sidB = Some "ROOM000001") as Hg by (vm_compute; reflexivity).
  exact (proj1 (proj2 (latency_probe pair sidB 1000 Hr Ht)) "ROOM000001" Hg).
Defined.

(** C8: the code made from [room000002] for B. *)
Lemma create_room_code_witness :
  reachable pair ∧ connected pair sidB ∧ is_uid "room000002" = true
  ∧ String.length (toUpperCase "room000002") = 10%nat
  ∧ ∃ s' out,
      step pair (CreateRoom sidB "room000002")
      = Done (s', out ++ [Callback sidB (RRoom None (Some (toUpperCase "room000002")))])
      ∧ members s' (toUpperCase "room000002")
        = set_delete sidB (members pair (toUpperCase "room000002")) ++ [sidB].
Proof.
  assert (reachable pair) as Hr by exact reachable_pair.
  assert (connected pair sidB) as Hc by (apply connected_concrete; vm_compute; reflexivity).
  split; [exact Hr|]. split; [exact Hc|]. split; [reflexivity|].
  destruct (create_room_code pair sidB "room000002" Hr Hc eq_refl)
    as (Hlen & _ & s' & out & Hs & Hm & _).
  split; [exact Hlen|]. exists s', out. split; [exact Hs | exact Hm].
Defined.

(** X18 on the pair: a third socket whose first two draws are taken gets the
    name of its third draw; B renames itself to the name A holds, and is
    answered [{error: null}]. *)
Lemma register_and_rename_witness :
  reachable pair
  ∧ (∃ username s',
       step pair (Connection "CCCCCCCCCCCCCCCCCCCC" [(0, 0); (1, 2); (2, 3)]%nat)
       = Done (s', [])
       ∧ users s' = <[ "CCCCCCCCCCCCCCCCCCCC" :=
                       mkUser "CCCCCCCCCCCCCCCCCCCC" username 0 "" 0]> (users pair))
  ∧ ∃ u s' out,
      users pair !! sidB = Some u
      ∧ step pair (ChangeUsername sidB "Awesome Giraffe")
        = Done (s', out ++ [Callback sidB (RError None)])
      ∧ users s'
        = <[sidB := mkUser (id u) "Awesome Giraffe" (ping u) (currentlyWatching u)
                           (currentTime u)]> (users pair).
Proof.
  assert (reachable pair) as Hr by exact reachable_pair.
  assert (connected pair sidB) as Hc by (apply connected_concrete; vm_compute; reflexivity).
  assert ((2, 3)%nat ∈ [(0, 0); (1, 2); (2, 3)]%nat) as Hd by (right; right; left).
  assert (username_of_draw (2, 3)%nat ∉ usernames pair) as Hfree
    by (apply (proj1 (bool_decide_eq_true _)); vm_compute; reflexivity).
  split; [exact Hr|]. split.
  - destruct (proj1 (register_and_rename pair Hr) "CCCCCCCCCCCCCCCCCCCC" _ _ Hd Hfree)
      as (username & s' & Hs & Hu & _).
    exists username, s'. split; [exact Hs | exact Hu].
  - exact (proj2 (register_and_rename pair Hr) sidB "Awesome Giraffe" Hc).
Defined.

(** * Further properties of the handlers *)

(** ** What the handlers leave alone *)

Lemma leaveCurrent_registry sid s :
  users (leaveCurrent sid s).1 = users s
  ∧ pingIntervals (leaveCurrent sid s).1 = pingIntervals s
  ∧ acks (leaveCurrent sid s).1 = acks s
  ∧ ids (leaveCurrent sid s).1 = ids s.
Proof. unfold leaveCurrent. by destruct (truthy _). Qed.

Lemma socket_join_registry sid room s :
  users (socket_join sid room s) = users s
  ∧ pingIntervals (socket_join sid room s) = pingIntervals s
  ∧ acks (socket_join sid room s) = acks s
  ∧ ids (socket_join sid room s) = ids s.
Proof. unfold socket_join. by destruct (sids s !! sid). Qed.

Lemma delAll_registry sid s :
  users (delAll sid s) = users s ∧ pingIntervals (delAll sid s) = pingIntervals s.
Proof. unfold delAll. by destruct (sids s !! sid). Qed.

(** The handlers that touch [users] and how. *)
Lemma step_users s e s' out :
  step s e = Done (s', out) →
  users s' = users s
  ∨ (∃ sid draws username, e = Connection sid draws
       ∧ users s' = <[sid := mkUser sid username 0 "" 0]> (users s))
  ∨ (∃ sid, e = Close sid ∧ users s' = delete sid (users s))
  ∨ (∃ sid u u', actor s e = Some sid ∧ users s !! sid = Some u ∧ id u' = id u
       ∧ users s' = <[sid := u']> (users s)).
Proof.
  intros Hs. destruct e; simpl in Hs.
  - unfold on_connection in Hs. destruct (getRandomUsername _ _) as [n|]; [|done].
    injection Hs as <- <-. right; left. exists sid, draws, n. split; reflexivity.
  - unfold on_close, on_disconnecting in Hs.
    pose proof (leaveCurrent_registry sid s) as (Hu & _).
    destruct (leaveCurrent sid s) as [s1 out1]. injection Hs as <- <-.
    right; right; left. exists sid. split; [done|]. simpl.
    by rewrite (proj1 (delAll_registry sid s1)), <- Hu.
  - unfold on_change_username in Hs. destruct (users s !! sid) as [u|] eqn:Hu; [|done].
    injection Hs as <- <-. right; right; right.
    by exists sid, u, (mkUser (id u) newName (ping u) (currentlyWatching u) (currentTime u)).
  - unfold on_get_username in Hs. destruct (users s !! sid); [|done].
    injection Hs as <- <-. by left.
  - unfold on_create_room in Hs.
    pose proof (leaveCurrent_registry sid s) as (Hu & _).
    destruct (leaveCurrent sid s) as [s1 out1]. injection Hs as <- <-.
    left. by rewrite (proj1 (socket_join_registry _ _ _)).
  - unfold on_join_room in Hs. destruct (rooms s !! room).
    + pose proof (leaveCurrent_registry sid s) as (Hu & _).
      destruct (leaveCurrent sid s) as [s1 out1]. injection Hs as <- <-.
      left. by rewrite (proj1 (socket_join_registry _ _ _)).
    + injection Hs as <- <-. by left.
  - unfold on_leave_room in Hs. destruct (truthy _); injection Hs as <- <-; by left.
  - unfold on_get_current_room in Hs. injection Hs as <- <-. by left.
  - unfold on_play, relay in Hs. destruct (truthy _); injection Hs as <- <-; by left.
  - unfold on_pause, relay in Hs. destruct (truthy _); injection Hs as <- <-; by left.
  - unfold on_sync, relay in Hs. destruct (truthy _); injection Hs as <- <-; by left.
  - unfold on_currentlyWatching in Hs. destruct (truthy _).
    + destruct (users s !! sid) as [u|] eqn:Hu; [|done]. injection Hs as <- <-.
      right; right; right.
      by exists sid, u, (mkUser (id u) (name u) (ping u) movieId time).
    + injection Hs as <- <-. by left.
  - unfold on_tick in Hs. destruct (truthy _); injection Hs as <- <-; by left.
  - unfold on_ping_reply in Hs. destruct (acks s !! ackId) as [a|] eqn:Ha.
    + destruct (users s !! ack_socket a) as [u|] eqn:Hu; [|done]. injection Hs as <- <-.
      right; right; right.
      exists (ack_socket a), u,
        (mkUser (id u) (name u) (now - ack_start a) (currentlyWatching u) (currentTime u)).
      simpl. by rewrite Ha.
    + injection Hs as <- <-. by left.
Qed.

Lemma step_record_ids s e s' out :
  record_ids s → step s e = Done (s', out) → record_ids s'.
Proof.
  intros Hid Hs x v.
  destruct (step_users s e s' out Hs)
    as [->|[(sid & d & n & _ & ->)|[(sid & _ & ->)|(sid & u & u' & _ & Hu & Hi & ->)]]].
  - apply Hid.
  - destruct (decide (sid = x)) as [->|Hx].
    + rewrite lookup_insert_eq. by intros [= <-].
    + rewrite lookup_insert_ne by done. apply Hid.
  - destruct (decide (sid = x)) as [->|Hx].
    + by rewrite lookup_delete_eq.
    + rewrite lookup_delete_ne by done. apply Hid.
  - destruct (decide (sid = x)) as [->|Hx].
    + rewrite lookup_insert_eq. intros [= <-]. rewrite Hi. by apply Hid.
    + rewrite lookup_insert_ne by done. apply Hid.
Qed.

Lemma reachable_record_ids s : reachable s → record_ids s.
Proof.
  induction 1 as [|s e s' out _ IH _ Hs]; [|by apply (step_record_ids s e s' out)].
  intros x v. unfold initial. simpl. by rewrite lookup_empty.
Qed.

(** Every change of the room map is made of the two adapter primitives. *)
Lemma step_rooms_ind (P : gmap string (list string) → Prop) :
  (∀ rs room sid, P rs → P (_del room sid rs)) →
  (∀ rs room sid, P rs → P (<[room := set_add sid (mem rs room)]> rs)) →
  ∀ s e s' out, P (rooms s) → step s e = Done (s', out) → P (rooms s').
Proof.
  intros Hdel Hadd.
  assert (∀ sid s, P (rooms s) → P (rooms (leaveCurrent sid s).1)) as Hleave.
  { intros sid s HP. unfold leaveCurrent. destruct (truthy _); [|done]. by apply Hdel. }
  assert (∀ sid room s, P (rooms s) → P (rooms (socket_join sid room s))) as Hjoin.
  { intros sid room s HP. unfold socket_join. destruct (sids s !! sid); [|done].
    by apply Hadd. }
  assert (∀ sid s, P (rooms s) → P (rooms (delAll sid s))) as HdelAll.
  { intros sid s HP. unfold delAll. destruct (sids s !! sid) as [l|]; [|done]. simpl.
    revert HP. generalize (rooms s). induction l as [|r l IH]; intros rs HP; [done|].
    simpl. by apply IH, Hdel. }
  intros s e s' out HP Hs. destruct e; simpl in Hs.
  - unfold on_connection in Hs. destruct (getRandomUsername _ _); [|done].
    injection Hs as <- <-. by apply Hadd.
  - unfold on_close, on_disconnecting in Hs. specialize (Hleave sid s HP).
    destruct (leaveCurrent sid s) as [s1 out1]. injection Hs as <- <-. by apply HdelAll.
  - unfold on_change_username in Hs. destruct (users s !! sid); [|done].
    by injection Hs as <- <-.
  - unfold on_get_username in Hs. destruct (users s !! sid); [|done].
    by injection Hs as <- <-.
  - unfold on_create_room in Hs. specialize (Hleave sid s HP).
    destruct (leaveCurrent sid s) as [s1 out1]. injection Hs as <- <-. by apply Hjoin.
  - unfold on_join_room in Hs. destruct (rooms s !! room).
    + specialize (Hleave sid s HP).
      destruct (leaveCurrent sid s) as [s1 out1]. injection Hs as <- <-. by apply Hjoin.
    + by injection Hs as <- <-.
  - unfold on_leave_room in Hs. destruct (truthy _); injection Hs as <- <-; [|done].
    by apply Hdel.
  - unfold on_get_current_room in Hs. by injection Hs as <- <-.
  - unfold on_play, relay in Hs. destruct (truthy _); by injection Hs as <- <-.
  - unfold on_pause, relay in Hs. destruct (truthy _); by injection Hs as <- <-.
  - unfold on_sync, relay in Hs. destruct (truthy _); by injection Hs as <- <-.
  - unfold on_currentlyWatching in Hs. destruct (truthy _).
    + destruct (users s !! sid); [|done]. by injection Hs as <- <-.
    + by injection Hs as <- <-.
  - unfold on_tick in Hs. destruct (truthy _); by injection Hs as <- <-.
  - unfold on_ping_reply in Hs.
    destruct (acks s !! ackId) as [a|]; [|by injection Hs as <- <-].
    destruct (users s !! ack_socket a); [|done]. by injection Hs as <- <-.
Qed.

Lemma NoDup_set_add x l : NoDup l → NoDup (set_add x l).
Proof.
  intros Hl. unfold set_add. destruct (decide (x ∈ l)) as [|Hx]; [done|].
  apply NoDup_app. split_and!; [done| |apply NoDup_singleton].
  intros y Hy ->%list_elem_of_singleton. done.
Qed.

Lemma rooms_nodup_del room sid rs : rooms_nodup rs → rooms_nodup (_del room sid rs).
Proof.
  intros Hnd r m. unfold _del. destruct (rs !! room) as [m0|] eqn:Hm; [|apply Hnd].
  destruct (set_delete sid m0) as [|a m'] eqn:Hd.
  - destruct (decide (r = room)) as [->|Hr];
      [by rewrite lookup_delete_eq | rewrite lookup_delete_ne by done; apply Hnd].
  - destruct (decide (r = room)) as [->|Hr].
    + rewrite lookup_insert_eq. intros [= <-]. rewrite <- Hd.
      apply NoDup_filter. by apply (Hnd room).
    + rewrite lookup_insert_ne by done. apply Hnd.
Qed.

Lemma rooms_nodup_add room sid rs :
  rooms_nodup rs → rooms_nodup (<[room := set_add sid (mem rs room)]> rs).
Proof.
  intros Hnd r m. destruct (decide (r = room)) as [->|Hr].
  - rewrite lookup_insert_eq. intros [= <-]. apply NoDup_set_add.
    unfold mem. destruct (rs !! room) as [m0|] eqn:Hm; simpl;
      [by apply (Hnd room) | apply NoDup_nil_2].
  - rewrite lookup_insert_ne by done. apply Hnd.
Qed.

Lemma reachable_rooms_nodup s : reachable s → rooms_nodup (rooms s).
Proof.
  induction 1 as [|s e s' out _ IH _ Hs].
  - intros r m. unfold initial. simpl. by rewrite lookup_empty.
  - apply (step_rooms_ind rooms_nodup) with s e out; try done.
    + intros rs room sid. apply rooms_nodup_del.
    + intros rs room sid. apply rooms_nodup_add.
Qed.

(** ** Registry and user lists *)

(** X1. Presence records, latency timers and connected sockets go together:
    in every reachable state a socket has a record exactly when it is
    connected, has a running interval exactly when it is connected, and each
    record is stored under its own [id]. *)
Theorem registry_tracks_connections s :
  reachable s →
  (∀ sid, is_Some (users s !! sid) ↔ connected s sid)
  ∧ (∀ sid, sid ∈ pingIntervals s ↔ connected s sid)
  ∧ (∀ sid u, users s !! sid = Some u → id u = sid).
Proof.
  intros Hreach. pose proof (reachable_Inv s Hreach) as HI. split_and!.
  - apply (inv_users s HI).
  - apply (inv_timers s HI).
  - by apply reachable_record_ids.
Qed.

Lemma records_of_members (f : string → option User) (l : list string) :
  (∀ x, x ∈ l → ∃ u, f x = Some u ∧ id u = x) →
  ∃ us, f <$> l = Some <$> us ∧ id <$> us = l
        ∧ Forall2 (λ x u, f x = Some u ∧ id u = x) l us.
Proof.
  induction l as [|x l IH]; intros H.
  - exists []. by split_and!.
  - destruct (H x) as (u & Hu & Hi); [left|].
    destruct IH as (us & Hus & His & Hall); [intros y Hy; apply H; by right|].
    exists (u :: us). rewrite !fmap_cons. split_and!.
    + by rewrite Hu, Hus.
    + by rewrite Hi, His.
    + by constructor.
Qed.

(** X2. A [user-list] is complete.  In every reachable state [emitUserList]
    for a room that has members sends one message to exactly those members;
    its payload has one entry per member, in the order of the member list,
    none of them [undefined], the [i]-th entry being the presence record that
    [users] holds for the [i]-th member, which carries that member's id; no
    member is listed twice and every member is a connected socket.  For a
    room without members it sends nothing. *)
Theorem user_list_complete s r :
  reachable s →
  (members s r = [] → emitUserList s r = [])
  ∧ (members s r ≠ [] →
     ∃ us, emitUserList s r = [ToRoom r (members s r) (UserList (Some <$> us))]
           ∧ Forall2 (λ x u, users s !! x = Some u ∧ id u = x) (members s r) us
           ∧ id <$> us = members s r
           ∧ NoDup (members s r)
           ∧ Forall (connected s) (members s r)).
Proof.
  intros Hreach. pose proof (reachable_Inv s Hreach) as HI.
  pose proof (inv_adapter s HI) as HA.
  rewrite emitUserList_members by apply HA. split.
  - intros Hm. by rewrite decide_True.
  - intros Hm. rewrite decide_False by done.
    assert (∀ x, x ∈ members s r → connected s x) as Hconn.
    { intros x Hx. apply (socketRooms_connected s x r). by apply (inv_consistent s HA). }
    destruct (records_of_members (λ x, users s !! x) (members s r))
      as (us & Hus & His & Hall).
    { intros x Hx. destruct (proj2 (inv_users s HI x) (Hconn x Hx)) as [u Hu].
      exists u. split; [done|]. by apply (reachable_record_ids s Hreach). }
    exists us. split_and!; try done.
    + by rewrite Hus.
    + unfold members. destruct (rooms s !! r) as [m|] eqn:Hr; simpl;
        [by apply (reachable_rooms_nodup s Hreach r) | apply NoDup_nil_2].
    + by apply Forall_forall.
Qed.

(** ** Round trips *)

(** X3. Rename round trip.  [change-username] by a connected socket always
    succeeds; a [get-username] that follows answers the new name; and when
    the socket is in a room, the members of that room (the sender among
    them) are sent one [user-list] in which the sender's record already
    carries the new name.  Outside a room only the answer is emitted. *)
Theorem rename_round_trip s sid newName :
  reachable s → connected s sid →
  ∃ s' u,
    users s' !! sid = Some u ∧ name u = newName
    ∧ step s (ChangeUsername sid newName)
      = Done (s', match getCurrentRoom s sid with
                  | Some c => [ToRoom c (members s c)
                                 (UserList ((λ x, users s' !! x) <$> members s c))]
                  | None => []
                  end ++ [Callback sid (RError None)])
    ∧ step s' (GetUsername sid) = Done (s', [Callback sid (RUsername None newName)])
    ∧ (∀ c, getCurrentRoom s sid = Some c → sid ∈ members s c).
Proof.
  intros Hreach Hc. pose proof (reachable_Inv s Hreach) as HI.
  pose proof (inv_adapter s HI) as HA.
  destruct (proj2 (inv_users s HI sid) Hc) as [u Hu].
  set (u' := mkUser (id u) newName (ping u) (currentlyWatching u) (currentTime u)).
  set (s' := set_users (insert sid u') s).
  assert (users s' !! sid = Some u') as Hu' by apply lookup_insert_eq.
  assert (∀ c, getCurrentRoom s sid = Some c → sid ∈ members s c) as Hin.
  { intros c Hg. apply (inv_consistent s HA). unfold getCurrentRoom in Hg.
    by apply list_elem_of_lookup_2 in Hg. }
  exists s', u'. split_and!; try done.
  - simpl. unfold on_change_username. rewrite Hu. fold u' s'. do 2 f_equal.
    assert (AdapterInv s') as HA' by by apply (AdapterInv_ext s).
    rewrite (truthy_getCurrentRoom s' sid HA').
    change (getCurrentRoom s' sid) with (getCurrentRoom s sid).
    destruct (getCurrentRoom s sid) as [c|] eqn:Hg; [|done].
    rewrite emitUserList_members by apply HA'.
    change (members s' c) with (members s c).
    rewrite decide_False; [done|]. intros He. specialize (Hin c eq_refl).
    rewrite He in Hin. by apply not_elem_of_nil in Hin.
  - simpl. unfold on_get_username. by rewrite Hu'.
Qed.

(** X4. Current-room round trip.  [get-current-room] answers the code that
    [create-room] has just returned, the code of a [join-room] that has just
    succeeded on a code other than the caller's own id, and [undefined] after
    any [leave-room], whether it succeeded or not; a refused [join-room]
    leaves the answer as it was. *)
Theorem current_room_round_trip s sid :
  reachable s → connected s sid →
  (∀ uid s1 out1, is_uid uid = true →
     step s (CreateRoom sid uid) = Done (s1, out1) →
     step s1 (GetCurrentRoom sid)
     = Done (s1, [Callback sid (RCurrentRoom (Some (toUpperCase uid)))]))
  ∧ (∀ room s1 out1, room ≠ sid → members s room ≠ [] →
     step s (JoinRoom sid room) = Done (s1, out1) →
     step s1 (GetCurrentRoom sid) = Done (s1, [Callback sid (RCurrentRoom (Some room))]))
  ∧ (∀ room s1 out1, members s room = [] →
     step s (JoinRoom sid room) = Done (s1, out1) →
     step s1 (GetCurrentRoom sid)
     = Done (s1, [Callback sid (RCurrentRoom (getCurrentRoom s sid))]))
  ∧ (∀ s1 out1,
     step s (LeaveRoom sid) = Done (s1, out1) →
     step s1 (GetCurrentRoom sid) = Done (s1, [Callback sid (RCurrentRoom None)])).
Proof.
  intros Hreach Hc. pose proof (reachable_Inv s Hreach) as HI.
  pose proof (inv_adapter s HI) as HA.
  assert (∀ t, step t (GetCurrentRoom sid)
               = Done (t, [Callback sid (RCurrentRoom (getCurrentRoom t sid))])) as Hget
    by done.
  split_and!.
  - intros uid s1 out1 Hu Hs.
    destruct (create_room_spec s sid uid HI Hc Hu) as (s' & out & Hs' & _ & _ & Hg & _).
    rewrite Hs in Hs'. injection Hs' as <- <-. by rewrite Hget, Hg.
  - intros room s1 out1 Hne Hm Hs.
    destruct (join_room_spec s sid room HI Hc Hm) as (s' & out & Hs' & _ & _ & Hg & _).
    rewrite Hs in Hs'. injection Hs' as <- <-. by rewrite Hget, Hg.
  - intros room s1 out1 Hm Hs. apply (room_lookup_members s room HA) in Hm.
    simpl in Hs. unfold on_join_room in Hs. rewrite Hm in Hs.
    injection Hs as <- <-. apply Hget.
  - intros s1 out1 Hs. rewrite Hget.
    destruct (leave_room_spec s sid HI Hc) as [Hfail Hok].
    destruct (getCurrentRoom s sid) as [c|] eqn:Hg.
    + destruct (Hok c eq_refl) as (Hs' & _ & _ & Hg' & _).
      rewrite Hs in Hs'. injection Hs' as -> _. by rewrite Hg'.
    + rewrite (proj1 Hfail eq_refl) in Hs. injection Hs as <- _. by rewrite Hg.
Qed.

(** X5. A room goes away with its last member.  When the caller is the only
    member of its room, [leave-room] and closing the socket send no
    [user-list], the room is dropped from the adapter, and from then on
    [join-room] with that code is refused for every socket, until somebody
    makes the code again. *)
Theorem room_dies_with_last_member s sid c e s1 out1 :
  reachable s → connected s sid →
  getCurrentRoom s sid = Some c → members s c = [sid] →
  e = LeaveRoom sid ∨ e = Close sid →
  step s e = Done (s1, out1) →
  rooms s1 !! c = None
  ∧ presence_rooms out1 = []
  ∧ ∀ x, step s1 (JoinRoom x c)
         = Done (s1, [Callback x (RRoom (Some "Room does not exist") None)]).
Proof.
  intros Hreach Hc Hg Hm He Hs. pose proof (reachable_Inv s Hreach) as HI.
  pose proof (inv_adapter s HI) as HA.
  assert (enabled s e) as Hen by (by destruct He as [->| ->]).
  pose proof (step_Inv s e s1 out1 HI Hen Hs) as HI1.
  destruct (getCurrentRoom_cases s sid HA Hc) as [[_ Hn]|(c' & Hcs & _ & Hr & Hg')];
    [congruence|].
  assert (c' = c) as -> by congruence.
  assert (set_delete sid [sid] = []) as Hempty.
  { unfold set_delete. by rewrite filter_cons_False by (intros H; by apply H). }
  assert (old_broadcast s sid = []) as Hold.
  { unfold old_broadcast. rewrite Hg, Hm, Hempty. by rewrite decide_True. }
  assert (members s1 c = [] ∧ presence_rooms out1 = []) as [Hm1 Hp1].
  { destruct He as [->| ->].
    - destruct (leave_room_spec s sid HI Hc) as [_ Hok].
      destruct (Hok c Hg) as (Hs' & _). rewrite Hs in Hs'. injection Hs' as -> ->.
      split.
      + unfold socket_leave. rewrite members_del, decide_True by done.
        by rewrite Hm.
      + rewrite presence_rooms_callback.
        rewrite <- Hold. apply (leaveCurrent_presence s sid (socket_leave sid c s)); try done.
        rewrite leaveCurrent_current by done. by rewrite Hg.
    - simpl in Hs. unfold on_close, on_disconnecting in Hs.
      destruct (leaveCurrent sid s) as [s0 out0] eqn:Hl. injection Hs as <- <-.
      split.
      + change (members (on_disconnect sid (delAll sid s0)) c)
          with (members (delAll sid s0) c).
        rewrite members_delAll.
        assert (members s0 c = []) as Hm0.
        { rewrite leaveCurrent_current, Hg in Hl by done. injection Hl as <- _.
          unfold socket_leave. rewrite members_del, decide_True by done.
          by rewrite Hm. }
        rewrite Hm0. by case_decide.
      + rewrite <- Hold. by apply (leaveCurrent_presence s sid s0). }
  apply (room_lookup_members s1 c (inv_adapter s1 HI1)) in Hm1.
  split_and!; try done.
  intros x. simpl. unfold on_join_room. by rewrite Hm1.
Qed.

(** ** Isolation *)

Lemma leaveCurrent_frame sid s x :
  x ≠ sid → socketRooms (leaveCurrent sid s).1 x = socketRooms s x.
Proof.
  intros Hx. unfold leaveCurrent. destruct (truthy _); [|done].
  simpl. unfold socket_leave. by rewrite socketRooms_del, decide_False.
Qed.

(** A handler that runs to its end writes [users[socket.id]] and joins or
    leaves with its own [socket] only. *)
Lemma step_frame s e s' out x :
  step s e = Done (s', out) → actor s e ≠ Some x →
  users s' !! x = users s !! x
  ∧ socketRooms s' x = socketRooms s x
  ∧ (x ∈ pingIntervals s' ↔ x ∈ pingIntervals s).
Proof.
  intros Hs Hx. split.
  { destruct (step_users s e s' out Hs)
      as [->|[(sid & d & n & -> & ->)|[(sid & -> & ->)|(sid & u & u' & Ha & _ & _ & ->)]]].
    - done.
    - rewrite lookup_insert_ne; [done|]. simpl in Hx. congruence.
    - rewrite lookup_delete_ne; [done|]. simpl in Hx. congruence.
    - rewrite lookup_insert_ne; [done|]. congruence. }
  destruct e; simpl in Hs, Hx;
    try (assert (x ≠ sid) as Hne by congruence).
  - unfold on_connection in Hs. destruct (getRandomUsername _ _); [|done].
    injection Hs as <- <-. split.
    + change (socketRooms (addAll sid sid s) x = socketRooms s x).
      by rewrite socketRooms_addAll, decide_False.
    + simpl. set_solver.
  - unfold on_close, on_disconnecting in Hs.
    pose proof (leaveCurrent_frame sid s x Hne) as Hf.
    pose proof (leaveCurrent_registry sid s) as (_ & Hp & _).
    destruct (leaveCurrent sid s) as [s1 out1]. injection Hs as <- <-. split.
    + change (socketRooms (delAll sid s1) x = socketRooms s x).
      by rewrite socketRooms_delAll, decide_False.
    + simpl. rewrite (proj2 (delAll_registry sid s1)). simpl in Hp. rewrite Hp.
      case_decide; set_solver.
  - unfold on_change_username in Hs. destruct (users s !! sid); [|done].
    by injection Hs as <- <-.
  - unfold on_get_username in Hs. destruct (users s !! sid); [|done].
    by injection Hs as <- <-.
  - unfold on_create_room in Hs.
    pose proof (leaveCurrent_registry sid s) as (_ & Hp & _).
    destruct (leaveCurrent sid s) as [s1 out1] eqn:Hl. injection Hs as <- <-. split.
    + by apply (rejoin_frame s sid _ s1 out1).
    + rewrite (proj1 (proj2 (socket_join_registry _ _ _))). simpl in Hp. by rewrite Hp.
  - unfold on_join_room in Hs. destruct (rooms s !! room); [|by injection Hs as <- <-].
    pose proof (leaveCurrent_registry sid s) as (_ & Hp & _).
    destruct (leaveCurrent sid s) as [s1 out1] eqn:Hl. injection Hs as <- <-. split.
    + by apply (rejoin_frame s sid _ s1 out1).
    + rewrite (proj1 (proj2 (socket_join_registry _ _ _))). simpl in Hp. by rewrite Hp.
  - unfold on_leave_room in Hs. destruct (truthy _); injection Hs as <- <-; [|done].
    split; [|done]. unfold socket_leave. by rewrite socketRooms_del, decide_False.
  - unfold on_get_current_room in Hs. by injection Hs as <- <-.
  - unfold on_play, relay in Hs. destruct (truthy _); by injection Hs as <- <-.
  - unfold on_pause, relay in Hs. destruct (truthy _); by injection Hs as <- <-.
  - unfold on_sync, relay in Hs. destruct (truthy _); by injection Hs as <- <-.
  - unfold on_currentlyWatching in Hs. destruct (truthy _).
    + destruct (users s !! sid); [|done]. by injection Hs as <- <-.
    + by injection Hs as <- <-.
  - unfold on_tick in Hs. destruct (truthy _); by injection Hs as <- <-.
  - unfold on_ping_reply in Hs.
    destruct (acks s !! ackId) as [a|]; [|by injection Hs as <- <-].
    destruct (users s !! ack_socket a); [|done]. by injection Hs as <- <-.
Qed.

(** ** Joining *)

(** X7. A joiner goes to the end of the list.  After a [join-room] that
    succeeds on a code other than the caller's own id, the member list of the
    room, which is the order of every later [user-list], is the former
    members without the caller, followed by the caller; the members of every
    room other than the one joined and the one left lose at most the
    caller. *)
Theorem join_appends_member s sid room s' out :
  reachable s → connected s sid → room ≠ sid → members s room ≠ [] →
  step s (JoinRoom sid room) = Done (s', out) →
  members s' room = set_delete sid (members s room) ++ [sid]
  ∧ (∀ r, r ≠ room → members s' r = if decide (getCurrentRoom s sid = Some r)
                                     then set_delete sid (members s r)
                                     else members s r).
Proof.
  intros Hreach Hc Hne Hm Hs. pose proof (reachable_Inv s Hreach) as HI.
  pose proof (inv_adapter s HI) as HA.
  assert (rooms s !! room ≠ None) as Hex by by rewrite room_lookup_members.
  assert (room ≠ "") as Hnn.
  { apply (room_exists_nonempty s); [done|]. by destruct (rooms s !! room). }
  destruct (leaveCurrent sid s) as [s1 out1] eqn:Hl.
  rewrite (join_room_unfold s sid room s1 out1 Hex Hl) in Hs. injection Hs as <- <-.
  destruct (rejoin_spec s sid room s1 out1 HI Hc Hnn Hl) as (_ & _ & _ & Hmem & _).
  destruct (leaveCurrent_inv s sid s1 out1 HA Hc Hl) as (_ & _ & Hc1 & _).
  split.
  - rewrite Hmem, (leaveCurrent_members s sid s1 out1 room HA Hc Hne Hl).
    apply set_add_fresh. rewrite elem_of_set_delete. by intros [? _].
  - intros r Hr. rewrite socket_join_connected by by apply Hc1.
    rewrite members_addAll, decide_False by done.
    destruct (leaveCurrent_cases s sid HA Hc) as [(Hg & _ & Hl')|(c & Hg & Hcs & _ & Hl')];
      rewrite Hl' in Hl; injection Hl as <- _; rewrite Hg.
    + by rewrite decide_False.
    + rewrite members_del. destruct (decide (r = c)) as [->|Hrc].
      * by rewrite decide_True.
      * rewrite decide_False; [done|]. congruence.
Qed.

(** X8. Joining one's own id is a leave that answers success.  [join-room]
    with the caller's own connection id always passes the existence test; it
    takes the caller out of its current room, if any, with the usual
    [user-list] for those left behind, joins nothing new, and answers
    [{error: null, roomID: id}]; afterwards the caller is in no room. *)
Theorem join_own_id_leaves_room s sid :
  reachable s → connected s sid →
  ∃ s' out,
    step s (JoinRoom sid sid) = Done (s', out ++ [Callback sid (RRoom None (Some sid))])
    ∧ getCurrentRoom s' sid = None
    ∧ socketRooms s' sid = [sid]
    ∧ presence_rooms out = old_broadcast s sid ++ [sid]
    ∧ (∀ x, x ≠ sid → socketRooms s' x = socketRooms s x).
Proof.
  intros Hreach Hc. pose proof (reachable_Inv s Hreach) as HI.
  pose proof (inv_adapter s HI) as HA.
  pose proof (private_room s sid HA Hc) as Hin.
  assert (rooms s !! sid ≠ None) as Hex.
  { rewrite room_lookup_members by done. intros He. rewrite He in Hin.
    by apply not_elem_of_nil in Hin. }
  assert (sid ≠ "") as Hnn by (apply socket_id_nonempty; by apply (inv_sid s HA)).
  destruct (leaveCurrent sid s) as [s1 out1] eqn:Hl.
  destruct (rejoin_spec s sid sid s1 out1 HI Hc Hnn Hl) as (_ & Hr & _ & _ & Hp).
  rewrite decide_True in Hr by done.
  eexists _, _. split_and!.
  - rewrite (join_room_unfold s sid sid s1 out1 Hex Hl). by rewrite app_assoc.
  - by rewrite (getCurrentRoom_pair _ _ _ Hr).
  - done.
  - done.
  - intros x Hx. by apply (rejoin_frame s sid sid s1 out1).
Qed.

(** ** Names *)

(** X9. [getRandomUsername] returns the name of the first draw that no
    record holds: every draw before it gave a taken name, and the name
    returned is free.  It is still looping after the supplied draws exactly
    when each of them gave a taken name. *)
Theorem getRandomUsername_first_free s draws :
  match getRandomUsername s draws with
  | Some n =>
      ∃ pre d post,
        draws = pre ++ d :: post
        ∧ Forall (λ d', username_of_draw d' ∈ usernames s) pre
        ∧ n = username_of_draw d
        ∧ n ∉ usernames s
  | None => Forall (λ d, username_of_draw d ∈ usernames s) draws
  end.
Proof.
  induction draws as [|d draws IH]; simpl; [done|].
  destruct (decide (username_of_draw d ∈ usernames s)) as [Hin|Hnin].
  - destruct (getRandomUsername s draws) as [n|].
    + destruct IH as (pre & d' & post & -> & Hpre & -> & Hfree).
      exists (d :: pre), d', post. split_and!; try done. by constructor.
    + by constructor.
  - by exists [], d, draws.
Qed.

(** ** The latency probe *)

(** X10. Probe round trip.  For a socket in room [c], a tick at time [now]
    followed by the reply at time [end_], with nothing in between, stores
    [end_ - now] as the [ping] of that socket's record and of no other, keeps
    every other field, and sends the members of [c], the socket among them,
    one [user-list] showing the new value.  The callback is then gone: a
    second reply with the same id changes and sends nothing. *)
Theorem probe_round_trip s sid c now end_ s1 out1 :
  reachable s → sid ∈ pingIntervals s → getCurrentRoom s sid = Some c →
  step s (Tick sid now) = Done (s1, out1) →
  ∃ u s2,
    users s !! sid = Some u
    ∧ out1 = [PingRequest sid (ids s)]
    ∧ step s1 (PingReply (ids s) end_)
      = Done (s2, [ToRoom c (members s c)
                     (UserList ((λ x, users s2 !! x) <$> members s c))])
    ∧ users s2 = <[sid := mkUser (id u) (name u) (end_ - now)
                                 (currentlyWatching u) (currentTime u)]> (users s)
    ∧ sid ∈ members s c
    ∧ (∀ t, step s2 (PingReply (ids s) t) = Done (s2, [])).
Proof.
  intros Hreach Ht Hg Hs. pose proof (reachable_Inv s Hreach) as HI.
  pose proof (inv_adapter s HI) as HA.
  assert (connected s sid) as Hc by by apply (inv_timers s HI).
  destruct (proj2 (inv_users s HI sid) Hc) as [u Hu].
  simpl in Hs. unfold on_tick in Hs. rewrite truthy_getCurrentRoom, Hg in Hs by done.
  injection Hs as <- <-.
  assert (sid ∈ members s c) as Hin.
  { apply (inv_consistent s HA). unfold getCurrentRoom in Hg.
    by apply list_elem_of_lookup_2 in Hg. }
  exists u. eexists. split_and!; try done.
  - simpl. unfold on_ping_reply. simpl. rewrite lookup_insert_eq. simpl. rewrite Hu.
    f_equal. f_equal. unfold emitUserList. simpl.
    destruct (rooms s !! c) as [m|] eqn:Hm.
    + unfold members. by rewrite Hm.
    + exfalso. unfold members in Hin. rewrite Hm in Hin. by apply not_elem_of_nil in Hin.
  - done.
  - intros t. simpl. unfold on_ping_reply. simpl. by rewrite lookup_delete_eq.
Qed.

(** ** Faults *)


Lemma step_completes s e :
  reachable s → enabled s e → completes s e → ∃ s' out, step s e = Done (s', out).
Proof.
  intros Hreach He Hc. pose proof (reachable_Inv s Hreach) as HI.
  assert (∀ sid, connected s sid → ∃ u, users s !! sid = Some u) as Hrec
    by (intros sid Hs; by apply (inv_users s HI)).
  destruct e; simpl in He, Hc; simpl.
  - destruct Hc as (d & Hd & Hfree). unfold on_connection.
    destruct (getRandomUsername_terminates (addAll sid sid s) draws d Hd Hfree) as [n ->].
    by eexists _, _.
  - unfold on_close. destruct (on_disconnecting sid s). by eexists _, _.
  - unfold on_change_username. destruct (Hrec sid He) as [u ->]. by eexists _, _.
  - unfold on_get_username. destruct (Hrec sid He) as [u ->]. by eexists _, _.
  - unfold on_create_room. destruct (leaveCurrent sid s). by eexists _, _.
  - unfold on_join_room. destruct (rooms s !! room); [|by eexists _, _].
    destruct (leaveCurrent sid s). by eexists _, _.
  - unfold on_leave_room. destruct (truthy _); by eexists _, _.
  - by eexists _, _.
  - unfold on_play, relay. destruct (truthy _); by eexists _, _.
  - unfold on_pause, relay. destruct (truthy _); by eexists _, _.
  - unfold on_sync, relay. destruct (truthy _); by eexists _, _.
  - unfold on_currentlyWatching. destruct (truthy _); [|by eexists _, _].
    destruct (Hrec sid He) as [u ->]. by eexists _, _.
  - unfold on_tick. destruct (truthy _); by eexists _, _.
  - unfold on_ping_reply. destruct He as [a Ha]. rewrite Ha.
    destruct (Hrec _ (Hc a Ha)) as [u ->]. by eexists _, _.
Qed.

Lemma step_not_completes s e :
  reachable s → enabled s e → ¬ completes s e →
  step s e = Spins ∨ step s e = Throws "TypeError".
Proof.
  intros Hreach He Hn. pose proof (reachable_Inv s Hreach) as HI.
  destruct e; simpl in He, Hn; try (by destruct Hn).
  - left. simpl. unfold on_connection.
    destruct (getRandomUsername (addAll sid sid s) draws) as [n|] eqn:Hg; [|done].
    destruct Hn. apply getRandomUsername_Some in Hg as (Hfree & d & Hd & ->).
    by exists d.
  - right. simpl. unfold on_ping_reply. destruct He as [a Ha]. rewrite Ha.
    destruct (users s !! ack_socket a) as [u|] eqn:Hu; [|done].
    destruct Hn. intros a' Ha'. rewrite Ha in Ha'. injection Ha' as <-.
    apply (inv_users s HI). by rewrite Hu.
Qed.

(** X6. Sockets are isolated.  In a reachable state, an event of the model
    that the runtime can deliver runs to its end unless it is a connection
    whose draws all give taken names (the name loop spins) or the reply to a
    probe of a socket that has closed (the callback throws).  When it runs to
    its end, every socket other than the one it runs for keeps its presence
    record, its rooms and its timer: a handler writes [users[socket.id]] and
    joins or leaves with its own [socket] only. *)
Theorem other_sockets_untouched s e :
  reachable s → enabled s e →
  (completes s e →
     ∃ s' out,
       step s e = Done (s', out)
       ∧ ∀ x, actor s e ≠ Some x →
           users s' !! x = users s !! x
           ∧ socketRooms s' x = socketRooms s x
           ∧ (x ∈ pingIntervals s' ↔ x ∈ pingIntervals s))
  ∧ (¬ completes s e → step s e = Spins ∨ step s e = Throws "TypeError").
Proof.
  intros Hreach He. split.
  - intros Hc. destruct (step_completes s e Hreach He Hc) as (s' & out & Hs).
    exists s', out. split; [done|]. intros x Hx. by apply (step_frame s e s' out).
  - by apply step_not_completes.
Qed.


(** ** The first version of [emitUserList] *)

Lemma v1_collect users m :
  (∀ x, x ∈ m → is_Some (users !! x)) →
  ∃ ns, V1.collect users m = Done ns
        ∧ List.length ns = List.length m
        ∧ Forall (λ n, n ≠ "") ns
        ∧ ∀ i x u, m !! i = Some x → users !! x = Some u →
            ns !! i = Some (if decide (V1.name u = "") then "Anonymous" else V1.name u).
Proof.
  induction m as [|y m IH]; intros H.
  - exists []. by split_and!.
  - destruct (H y) as [v Hv]; [left|].
    destruct IH as (ns & Hns & Hlen & Hne & Hidx); [intros x Hx; apply H; by right|].
    exists ((if decide (V1.name v = "") then "Anonymous" else V1.name v) :: ns).
    split_and!.
    + simpl. by rewrite Hv, Hns.
    + simpl. by rewrite Hlen.
    + constructor; [by case_decide | done].
    + intros [|i] x u; simpl.
      * intros [= <-] Hu. rewrite Hv in Hu. by injection Hu as <-.
      * apply Hidx.
Qed.

(** X12. The first version's [emitUserList] sends display names.  For a
    room whose members all have a record it sends the members one name per
    member, in member order; a member whose name is the empty string is shown
    as [Anonymous], so no name sent is empty.  It sends nothing for a room
    that does not exist, and throws when a member has no record. *)
Theorem v1_user_list_names users rooms room :
  (rooms !! room = None → V1.emitUserList users rooms room = Done None)
  ∧ (∀ m, rooms !! room = Some m → (∀ x, x ∈ m → is_Some (users !! x)) →
       ∃ ns, V1.emitUserList users rooms room = Done (Some (m, ns))
             ∧ List.length ns = List.length m
             ∧ Forall (λ n, n ≠ "") ns
             ∧ ∀ i x u, m !! i = Some x → users !! x = Some u →
                 ns !! i = Some (if decide (V1.name u = "") then "Anonymous"
                                 else V1.name u))
  ∧ (∀ m x, rooms !! room = Some m → x ∈ m → users !! x = None →
       V1.emitUserList users rooms room = Throws "TypeError").
Proof.
  unfold V1.emitUserList. split_and!.
  - by intros ->.
  - intros m -> H. destruct (v1_collect users m H) as (ns & -> & Hrest). by exists ns.
  - intros m x -> Hx Hu.
    assert (V1.collect users m = Throws "TypeError") as ->; [|done].
    induction m as [|y m IH]; [by apply not_elem_of_nil in Hx|]. simpl.
    destruct (users !! y) as [v|] eqn:Hv; [|done].
    apply elem_of_cons in Hx as [->|Hx]; [congruence|]. by rewrite IH.
Qed.

(** ** Closing a socket *)

(** X13. Closing a socket tells its room what [leave-room] would have.
    For a socket in room [c], closing emits exactly the [user-list] that
    [leave-room] emits before its answer, and leaves every room other than
    the socket's private one with the same members as [leave-room] does; for
    a socket in no room, closing emits nothing.  Either way the closed socket
    is a member of no room. *)
Theorem close_broadcasts_like_leave s sid :
  reachable s → connected s sid →
  ∃ s1 out,
    step s (Close sid) = Done (s1, out)
    ∧ (∀ r, sid ∉ members s1 r)
    ∧ (getCurrentRoom s sid = None → out = [])
    ∧ (∀ c, getCurrentRoom s sid = Some c →
         ∃ s2, step s (LeaveRoom sid) = Done (s2, out ++ [Callback sid (RError None)])
               ∧ ∀ r, r ≠ sid → members s1 r = members s2 r).
Proof.
  intros Hreach Hc. pose proof (reachable_Inv s Hreach) as HI.
  pose proof (inv_adapter s HI) as HA.
  destruct (leaveCurrent sid s) as [s0 out0] eqn:Hl.
  assert (step s (Close sid) = Done (on_disconnect sid (delAll sid s0), out0)) as Hs.
  { simpl. unfold on_close, on_disconnecting. by rewrite Hl. }
  destruct (leaveCurrent_inv s sid s0 out0 HA Hc Hl) as (HA0 & Hr0 & _).
  assert (∀ r, members (on_disconnect sid (delAll sid s0)) r
               = set_delete sid (members s0 r)) as Hmem.
  { intros r. change (members (on_disconnect sid (delAll sid s0)) r)
      with (members (delAll sid s0) r).
    rewrite members_delAll. case_decide as Hin; [done|].
    symmetry. apply set_delete_absent. by rewrite (inv_consistent s0 HA0). }
  eexists _, _. split; [exact Hs|]. split_and!.
  - intros r. rewrite Hmem, elem_of_set_delete. by intros [? _].
  - intros Hg. rewrite leaveCurrent_current, Hg in Hl by done. by injection Hl as _ <-.
  - intros c Hg. rewrite leaveCurrent_current, Hg in Hl by done. injection Hl as <- <-.
    destruct (leave_room_spec s sid HI Hc) as [_ Hok].
    destruct (Hok c Hg) as (Hs' & _). eexists. split; [exact Hs'|].
    intros r Hr. rewrite Hmem. apply set_delete_absent.
    rewrite (inv_consistent _ HA0), Hr0. set_solver.
Qed.

(** X14. The [disconnect] handler can run twice.  Running it again on its
    own result changes nothing, and on a state that has neither a record nor
    a timer for the socket it changes nothing either: [delete] of a missing
    key is harmless and [clearInterval] is guarded. *)
Theorem disconnect_idempotent s sid :
  on_disconnect sid (on_disconnect sid s) = on_disconnect sid s
  ∧ (users s !! sid = None → sid ∉ pingIntervals s → on_disconnect sid s = s).
Proof.
  split.
  - unfold on_disconnect. simpl. f_equal.
    + apply map_eq. intros x. destruct (decide (x = sid)) as [->|Hx].
      * by rewrite !lookup_delete_eq.
      * by rewrite !lookup_delete_ne.
    + destruct (decide (sid ∈ pingIntervals s)) as [Hin|Hnin].
      * rewrite decide_False; [done|]. set_solver.
      * by rewrite decide_False.
  - intros Hu Ht. unfold on_disconnect. rewrite decide_False by done.
    destruct s as [u p sd rm a i]. simpl in *. f_equal.
    apply map_eq. intros x. destruct (decide (x = sid)) as [->|Hx].
    + by rewrite lookup_delete_eq.
    + by rewrite lookup_delete_ne.
Qed.

(** ** Connecting *)

(** X15. A new connection starts outside every room.  When one of its
    draws gives a free name, the connection callback runs to its end and
    emits nothing; afterwards the socket is in its private room only, has a
    record with its own id, [ping] 0 and an empty watching state, and a
    running interval; a [leave-room] sent right away is refused and a tick
    sends no probe. *)
Theorem connection_starts_outside_rooms s sid draws d :
  reachable s → enabled s (Connection sid draws) →
  d ∈ draws → (username_of_draw d ∉ usernames s) →
  ∃ s' username,
    step s (Connection sid draws) = Done (s', [])
    ∧ socketRooms s' sid = [sid]
    ∧ getCurrentRoom s' sid = None
    ∧ users s' !! sid = Some (mkUser sid username 0 "" 0)
    ∧ sid ∈ pingIntervals s'
    ∧ step s' (LeaveRoom sid) = Done (s', [Callback sid (RError (Some "No room to leave"))])
    ∧ (∀ now, step s' (Tick sid now) = Done (s', [])).
Proof.
  intros Hreach (Hnone & Hid & _) Hd Hfree. pose proof (reachable_Inv s Hreach) as HI.
  assert (¬ connected s sid) as Hnc by (unfold connected; rewrite Hnone; by intros [? ?]).
  destruct (AdapterInv_addAll_fresh s sid (inv_adapter s HI) Hnc Hid) as [_ Hr].
  destruct (getRandomUsername_terminates (addAll sid sid s) draws d Hd Hfree) as [n Hn].
  set (s0 := addAll sid sid s) in *.
  set (s' := mkState (<[sid := mkUser sid n 0 "" 0]> (users s0))
                     ({[sid]} ∪ pingIntervals s0)
                     (sids s0) (rooms s0) (acks s0) (ids s0)).
  assert (step s (Connection sid draws) = Done (s', [])) as Hs.
  { change (on_connection sid draws s = Done (s', [])). unfold on_connection.
    fold s0. by rewrite Hn. }
  assert (socketRooms s' sid = [sid]) as Hr' by exact Hr.
  assert (getCurrentRoom s' sid = None) as Hg by (unfold getCurrentRoom; by rewrite Hr').
  exists s', n. split_and!; try done.
  - apply lookup_insert_eq.
  - apply elem_of_union_l, elem_of_singleton. done.
  - change (on_leave_room sid s' = Done (s', [Callback sid (RError (Some "No room to leave"))])).
    unfold on_leave_room. by rewrite Hg.
  - intros now. change (on_tick sid now s' = Done (s', [])).
    unfold on_tick. by rewrite Hg.
Qed.

(** ** The further properties on concrete runs *)

Lemma reachable_host : reachable host.
Proof. apply (state_after_reachable host_events). vm_compute. reflexivity. Qed.

Lemma reachable_lobby : reachable lobby.
Proof. apply (state_after_reachable lobby_events). vm_compute. reflexivity. Qed.


(** X1 on the pair. *)
Lemma registry_tracks_connections_witness :
  reachable pair ∧ ∀ sid u, users pair !! sid = Some u → id u = sid.
Proof.
  assert (reachable pair) as Hr by exact reachable_pair.
  split; [exact Hr|]. exact (proj2 (proj2 (registry_tracks_connections pair Hr))).
Defined.

(** X2 on the pair: the list for ROOM000001 has the records of A and B. *)
Lemma user_list_complete_witness :
  reachable pair ∧ members pair "ROOM000001" ≠ []
  ∧ ∃ us, emitUserList pair "ROOM000001"
          = [ToRoom "ROOM000001" (members pair "ROOM000001") (UserList (Some <$> us))]
          ∧ Forall2 (λ x u, users pair !! x = Some u ∧ id u = x)
                    (members pair "ROOM000001") us.
Proof.
  assert (reachable pair) as Hr by exact reachable_pair.
  assert (members pair "ROOM000001" ≠ []) as Hm by (vm_compute; discriminate).
  split; [exact Hr|]. split; [exact Hm|].
  destruct (proj2 (user_list_complete pair "ROOM000001" Hr) Hm) as (us & He & Hall & _).
  exists us. split; [exact He | exact Hall].
Defined.

(** X3 on the pair: B becomes Bob. *)
Lemma rename_round_trip_witness :
  reachable pair ∧ connected pair sidB
  ∧ ∃ s', step s' (GetUsername sidB) = Done (s', [Callback sidB (RUsername None "Bob")]).
Proof.
  assert (reachable pair) as Hr by exact reachable_pair.
  assert (connected pair sidB) as Hc by (apply connected_concrete; vm_compute; reflexivity).
  split; [exact Hr|]. split; [exact Hc|].
  destruct (rename_round_trip pair sidB "Bob" Hr Hc) as (s' & u & _ & _ & _ & Hget & _).
  exists s'. exact Hget.
Defined.

(** X4 on the pair: B leaves and asks for its room. *)
Lemma current_room_round_trip_witness :
  reachable pair ∧ connected pair sidB
  ∧ step pair (LeaveRoom sidB) = Done (next pair (LeaveRoom sidB), emitted pair (LeaveRoom sidB))
  ∧ step (next pair (LeaveRoom sidB)) (GetCurrentRoom sidB)
    = Done (next pair (LeaveRoom sidB), [Callback sidB (RCurrentRoom None)]).
Proof.
  assert (reachable pair) as Hr by exact reachable_pair.
  assert (connected pair sidB) as Hc by (apply connected_concrete; vm_compute; reflexivity).
  assert (step pair (LeaveRoom sidB)
          = Done (next pair (LeaveRoom sidB), emitted pair (LeaveRoom sidB))) as Hs
    by (vm_compute; reflexivity).
  split; [exact Hr|]. split; [exact Hc|]. split; [exact Hs|].
  exact (proj2 (proj2 (proj2 (current_room_round_trip pair sidB Hr Hc))) _ _ Hs).
Defined.

(** X5 on the host: A leaves the room it is alone in. *)
Lemma room_dies_with_last_member_witness :
  reachable host ∧ connected host sidA
  ∧ getCurrentRoom host sidA = Some "ROOM000001"
  ∧ members host "ROOM000001" = [sidA]
  ∧ step host (LeaveRoom sidA) = Done (alone, [Callback sidA (RError None)])
  ∧ rooms alone !! "ROOM000001" = None
  ∧ ∀ x, step alone (JoinRoom x "ROOM000001")
         = Done (alone, [Callback x (RRoom (Some "Room does not exist") None)]).
Proof.
  assert (reachable host) as Hr by exact reachable_host.
  assert (connected host sidA) as Hc by (apply connected_concrete; vm_compute; reflexivity).
  assert (getCurrentRoom host sidA = Some "ROOM000001") as Hg by (vm_compute; reflexivity).
  assert (members host "ROOM000001" = [sidA]) as Hm by (vm_compute; reflexivity).
  assert (step host (LeaveRoom sidA) = Done (alone, [Callback sidA (RError None)])) as Hs
    by (vm_compute; reflexivity).
  split; [exact Hr|]. split; [exact Hc|]. split; [exact Hg|]. split; [exact Hm|].
  split; [exact Hs|].
  destruct (room_dies_with_last_member host sidA "ROOM000001" (LeaveRoom sidA) alone _
              Hr Hc Hg Hm (or_introl eq_refl) Hs) as (H1 & _ & H3).
  split; [exact H1 | exact H3].
Defined.

(** X6 in the lobby: B joins the room of A; the record and rooms of A stay
    as they were. *)
Lemma other_sockets_untouched_witness :
  reachable lobby ∧ enabled lobby (JoinRoom sidB "ROOM000001")
  ∧ completes lobby (JoinRoom sidB "ROOM000001")
  ∧ ∃ s' out,
      step lobby (JoinRoom sidB "ROOM000001") = Done (s', out)
      ∧ users s' !! sidA = users lobby !! sidA
      ∧ socketRooms s' sidA = socketRooms lobby sidA.
Proof.
  assert (reachable lobby) as Hr by exact reachable_lobby.
  assert (enabled lobby (JoinRoom sidB "ROOM000001")) as He
    by (apply connected_concrete; vm_compute; reflexivity).
  assert (completes lobby (JoinRoom sidB "ROOM000001")) as Hc by exact I.
  assert (actor lobby (JoinRoom sidB "ROOM000001") ≠ Some sidA) as Ha
    by (simpl; discriminate).
  split; [exact Hr|]. split; [exact He|]. split; [exact Hc|].
  destruct (proj1 (other_sockets_untouched lobby _ Hr He) Hc) as (s' & out & Hs & Hf).
  destruct (Hf sidA Ha) as (H1 & H2 & _).
  exists s', out. split; [exact Hs|]. split; [exact H1 | exact H2].
Defined.

(** X7 in the lobby: B joins the room of A and is listed after A. *)
Lemma join_appends_member_witness :
  reachable lobby ∧ connected lobby sidB ∧ "ROOM000001" ≠ sidB
  ∧ members lobby "ROOM000001" ≠ []
  ∧ members (next lobby (JoinRoom sidB "ROOM000001")) "ROOM000001"
    = set_delete sidB (members lobby "ROOM000001") ++ [sidB].
Proof.
  assert (reachable lobby) as Hr by exact reachable_lobby.
  assert (connected lobby sidB) as Hc by (apply connected_concrete; vm_compute; reflexivity).
  assert ("ROOM000001" ≠ sidB) as Hne by discriminate.
  assert (members lobby "ROOM000001" ≠ []) as Hm by (vm_compute; discriminate).
  assert (step lobby (JoinRoom sidB "ROOM000001")
          = Done (next lobby (JoinRoom sidB "ROOM000001"),
                  emitted lobby (JoinRoom sidB "ROOM000001"))) as Hs
    by (vm_compute; reflexivity).
  split; [exact Hr|]. split; [exact Hc|]. split; [exact Hne|]. split; [exact Hm|].
  exact (proj1 (join_appends_member lobby sidB "ROOM000001" _ _ Hr Hc Hne Hm Hs)).
Defined.

(** X8 on the pair: B joins its own id and is out of ROOM000001. *)
Lemma join_own_id_leaves_room_witness :
  reachable pair ∧ connected pair sidB
  ∧ ∃ s' out,
      step pair (JoinRoom sidB sidB) = Done (s', out ++ [Callback sidB (RRoom None (Some sidB))])
      ∧ getCurrentRoom s' sidB = None.
Proof.
  assert (reachable pair) as Hr by exact reachable_pair.
  assert (connected pair sidB) as Hc by (apply connected_concrete; vm_compute; reflexivity).
  split; [exact Hr|]. split; [exact Hc|].
  destruct (join_own_id_leaves_room pair sidB Hr Hc) as (s' & out & Hs & Hg & _).
  exists s', out. split; [exact Hs | exact Hg].
Defined.

(** X10 on the pair: B is probed at 1000 and replies at 1030. *)
Lemma probe_round_trip_witness :
  reachable pair ∧ sidB ∈ pingIntervals pair
  ∧ getCurrentRoom pair sidB = Some "ROOM000001"
  ∧ ∃ u s2,
      users pair !! sidB = Some u
      ∧ users s2 = <[sidB := mkUser (id u) (name u) (1030 - 1000)
                                    (currentlyWatching u) (currentTime u)]> (users pair).
Proof.
  assert (reachable pair) as Hr by exact reachable_pair.
  assert (sidB ∈ pingIntervals pair) as Ht
    by (apply (proj1 (bool_decide_eq_true _)); vm_compute; reflexivity).
  assert (getCurrentRoom pair sidB = Some "ROOM000001") as Hg by (vm_compute; reflexivity).
  assert (step pair (Tick sidB 1000)
          = Done (next pair (Tick sidB 1000), emitted pair (Tick sidB 1000))) as Hs
    by (vm_compute; reflexivity).
  split; [exact Hr|]. split; [exact Ht|]. split; [exact Hg|].
  destruct (probe_round_trip pair sidB "ROOM000001" 1000 1030 _ _ Hr Ht Hg Hs)
    as (u & s2 & Hu & _ & _ & Hu2 & _).
  exists u, s2. split; [exact Hu | exact Hu2].
Defined.


(** X13 on the pair: B closes; A is told as if B had left. *)
Lemma close_broadcasts_like_leave_witness :
  reachable pair ∧ connected pair sidB
  ∧ ∃ s1 out, step pair (Close sidB) = Done (s1, out) ∧ ∀ r, sidB ∉ members s1 r.
Proof.
  assert (reachable pair) as Hr by exact reachable_pair.
  assert (connected pair sidB) as Hc by (apply connected_concrete; vm_compute; reflexivity).
  split; [exact Hr|]. split; [exact Hc|].
  destruct (close_broadcasts_like_leave pair sidB Hr Hc) as (s1 & out & Hs & Hm & _).
  exists s1, out. split; [exact Hs | exact Hm].
Defined.

(** X15 on the first connection of a run. *)
Lemma connection_starts_outside_rooms_witness :
  reachable initial ∧ enabled initial (Connection sidA [(0, 0)%nat])
  ∧ (0, 0)%nat ∈ [(0, 0)%nat]
  ∧ (username_of_draw (0, 0)%nat ∉ usernames initial)
  ∧ ∃ s' username,
      step initial (Connection sidA [(0, 0)%nat]) = Done (s', [])
      ∧ users s' !! sidA = Some (mkUser sidA username 0 "" 0)
      ∧ getCurrentRoom s' sidA = None.
Proof.
  assert (reachable initial) as Hr by constructor.
  assert (enabled initial (Connection sidA [(0, 0)%nat])) as He
    by (apply (proj1 (bool_decide_eq_true _)); vm_compute; reflexivity).
  assert ((0, 0)%nat ∈ [(0, 0)%nat]) as Hd by left.
  assert (username_of_draw (0, 0)%nat ∉ usernames initial) as Hfree
    by (apply (proj1 (bool_decide_eq_true _)); vm_compute; reflexivity).
  split; [exact Hr|]. split; [exact He|]. split; [exact Hd|]. split; [exact Hfree|].
  destruct (connection_starts_outside_rooms initial sidA _ _ Hr He Hd Hfree)
    as (s' & username & Hs & _ & Hg & Hu & _).
  exists s', username. split; [exact Hs|]. split; [exact Hu | exact Hg].
Defined.
